(** * The Twilio / OpenAI media-stream relay of [main.py]

    This development covers the two relay coroutines that
    [handle_media_stream] runs side by side:

    - [receive_from_twilio] (telephony to AI), and
    - [send_to_twilio] (AI to telephony),

    together with the library calls they depend on: dictionary
    subscripting on values produced by [json.loads], Python truthiness,
    and the [base64.b64decode] / [base64.b64encode] pair.

    Messages are represented by the values [json.loads] produces and
    [json.dumps] consumes; the two coroutines are run against an explicit
    sequence of events delivered by the two websockets, one message at a
    time (asyncio switches coroutines only at an [await]). *)

From Stdlib Require Import List Strings.String Strings.Ascii Strings.Byte NArith ZArith Bool Lia.
From Stdlib Require Import Floats.SpecFloat.
Import ListNotations.

Local Open Scope string_scope.
Local Open Scope list_scope.
Local Open Scope N_scope.

(* ===================================================================== *)
(** ** Exceptions *)
(* ===================================================================== *)

(** The exception classes that can surface in the two coroutines. *)
Inductive exn : Type :=
| JSONDecodeError          (* json.loads on a text that is not JSON *)
| KeyError (key : string)  (* d[key] on a dict without that key *)
| TypeError                (* subscripting a non-dict with a str; wrong argument type *)
| ValueError               (* b64decode: non-ASCII characters in a str *)
| AttributeError           (* v.get on a value that is not a dict *)
| binascii_Error           (* b64decode: wrong length / incorrect padding *)
| ConnectionClosed         (* websockets: send on / iterate over a dead connection *)
| WebSocketDisconnect.     (* starlette: the telephony peer went away *)

Inductive result (A : Type) : Type :=
| Ok (a : A)
| Raise (e : exn).
Arguments Ok {A} a.
Arguments Raise {A} e.

(* ===================================================================== *)
(** ** Base64, after CPython's [binascii] *)
(* ===================================================================== *)

Module Base64.

(** [table_b2a_base64]: sextet to character. *)
Definition table_b2a_base64 : string :=
  "ABCDEFGHIJKLMNOPQRSTUVWXYZabcdefghijklmnopqrstuvwxyz0123456789+/".

Definition BASE64_PAD : ascii := "="%char.

Definition b2a (sextet : N) : ascii :=
  match String.get (N.to_nat sextet) table_b2a_base64 with
  | Some c => c
  | None => BASE64_PAD
  end.

(** [table_a2b_base64]: character to sextet; every character outside the
    alphabet maps to a value above 63 (the C table stores -1 in an
    unsigned char). *)
Definition table_a2b_base64 (c : ascii) : N :=
  let n := N_of_ascii c in
  if (65 <=? n) && (n <=? 90) then n - 65
  else if (97 <=? n) && (n <=? 122) then n - 71
  else if (48 <=? n) && (n <=? 57) then n + 4
  else if n =? 43 then 62
  else if n =? 47 then 63
  else 255.

(** Storing into an [unsigned char]. *)
Definition u8 (n : N) : byte :=
  match Byte.of_N (n mod 256) with
  | Some b => b
  | None => x00
  end.

(** [binascii.b2a_base64(data, newline=False)]: three bytes become four
    characters; a final group of one or two bytes is padded with [=]. *)
Fixpoint b2a_base64 (bin_data : list byte) : string :=
  match bin_data with
  | [] => EmptyString
  | [x] =>
      let a := Byte.to_N x in
      String (b2a (N.shiftr a 2))
        (String (b2a (N.shiftl (N.land a 3) 4))
           (String BASE64_PAD (String BASE64_PAD EmptyString)))
  | [x; y] =>
      let a := Byte.to_N x in
      let b := Byte.to_N y in
      String (b2a (N.shiftr a 2))
        (String (b2a (N.lor (N.shiftl (N.land a 3) 4) (N.shiftr b 4)))
           (String (b2a (N.shiftl (N.land b 15) 2))
              (String BASE64_PAD EmptyString)))
  | x :: y :: z :: rest =>
      let a := Byte.to_N x in
      let b := Byte.to_N y in
      let c := Byte.to_N z in
      String (b2a (N.shiftr a 2))
        (String (b2a (N.lor (N.shiftl (N.land a 3) 4) (N.shiftr b 4)))
           (String (b2a (N.lor (N.shiftl (N.land b 15) 2) (N.shiftr c 6)))
              (String (b2a (N.land c 63)) (b2a_base64 rest))))
  end.

(** [binascii.a2b_base64(data, strict_mode=False)], the loop over the
    input characters.  [quad_pos] counts the sextets of the current group,
    [leftchar] holds the bits not yet written, [pads] the run of [=] seen,
    [bin_data] the bytes written so far.

    - A [=] completes the input once the group has at least two sextets
      and enough pads to fill it; whatever follows is not looked at.
      Any other [=] is skipped.
    - A character outside the alphabet is skipped.
    - At the end of the input an unfinished group is an error. *)
Fixpoint a2b_loop (ascii_data : string) (quad_pos leftchar pads : N)
    (bin_data : list byte) : result (list byte) :=
  match ascii_data with
  | EmptyString =>
      if quad_pos =? 0 then Ok bin_data else Raise binascii_Error
  | String ch rest =>
      if Ascii.eqb ch BASE64_PAD then
        if 2 <=? quad_pos then
          if 4 <=? quad_pos + (pads + 1) then Ok bin_data
          else a2b_loop rest quad_pos leftchar (pads + 1) bin_data
        else a2b_loop rest quad_pos leftchar pads bin_data
      else
        let this_ch := table_a2b_base64 ch in
        if 64 <=? this_ch then a2b_loop rest quad_pos leftchar pads bin_data
        else
          match quad_pos with
          | 0 => a2b_loop rest 1 this_ch 0 bin_data
          | 1 =>
              a2b_loop rest 2 (N.land this_ch 15) 0
                (bin_data ++ [u8 (N.lor (N.shiftl leftchar 2) (N.shiftr this_ch 4))])
          | 2 =>
              a2b_loop rest 3 (N.land this_ch 3) 0
                (bin_data ++ [u8 (N.lor (N.shiftl leftchar 4) (N.shiftr this_ch 2))])
          | _ =>
              a2b_loop rest 0 0 0
                (bin_data ++ [u8 (N.lor (N.shiftl leftchar 6) this_ch)])
          end
  end.

Definition a2b_base64 (ascii_data : string) : result (list byte) :=
  a2b_loop ascii_data 0 0 0 [].

(** [s.encode('ascii')] succeeds only on 7-bit characters. *)
Fixpoint is_ascii (s : string) : bool :=
  match s with
  | EmptyString => true
  | String c rest => (N_of_ascii c <? 128) && is_ascii rest
  end.

End Base64.

(* ===================================================================== *)
(** ** Values of [json.loads] and the Python operations applied to them *)
(* ===================================================================== *)

(** What [json.loads] returns: [None], [bool], [int], [float], [str],
    [list], [dict].  A dict is kept as its items in insertion order, which
    is also the order [json.dumps] writes them in; the keys of a dict are
    distinct, and a lookup takes the first item with the key. *)
#[warnings="-register-all"]
Inductive json : Type :=
| JNull
| JBool (b : bool)
| JInt (n : Z)
| JFloat (x : spec_float)
| JStr (s : string)
| JArr (elems : list json)
| JObj (items : list (string * json)).

Fixpoint dict_lookup (key : string) (items : list (string * json)) : option json :=
  match items with
  | [] => None
  | (k, v) :: rest => if String.eqb k key then Some v else dict_lookup key rest
  end.

(** [v[key]] with a [str] key. *)
Definition getitem (v : json) (key : string) : result json :=
  match v with
  | JObj items =>
      match dict_lookup key items with
      | Some x => Ok x
      | None => Raise (KeyError key)
      end
  | _ => Raise TypeError
  end.

(** [v.get(key)]. *)
Definition dict_get (v : json) (key : string) : result json :=
  match v with
  | JObj items =>
      match dict_lookup key items with
      | Some x => Ok x
      | None => Ok JNull
      end
  | _ => Raise AttributeError
  end.

(** [bool(v)]. *)
Definition truthy (v : json) : bool :=
  match v with
  | JNull => false
  | JBool b => b
  | JInt n => negb (n =? 0)%Z
  | JFloat (S754_zero _) => false
  | JFloat _ => true
  | JStr s => negb (String.eqb s "")
  | JArr elems => match elems with [] => false | _ => true end
  | JObj items => match items with [] => false | _ => true end
  end.

(** [v == s] for a [str] literal [s]. *)
Definition py_eq_str (v : json) (s : string) : bool :=
  match v with
  | JStr s' => String.eqb s' s
  | _ => false
  end.

(** [v in l] for a list [l] of [str] literals. *)
Definition py_in (v : json) (l : list string) : bool :=
  existsb (py_eq_str v) l.

(** A websocket message, as far as [json.loads] is concerned: either it
    is not a JSON document, or it is one and denotes a value. *)
Inductive text : Type :=
| NotJSON
| JSONText (v : json).

Definition json_loads (message : text) : result json :=
  match message with
  | NotJSON => Raise JSONDecodeError
  | JSONText v => Ok v
  end.

(** [base64.b64decode(s)]: a [str] is first encoded as ASCII. *)
Definition b64decode (s : json) : result (list byte) :=
  match s with
  | JStr s =>
      if Base64.is_ascii s then Base64.a2b_base64 s else Raise ValueError
  | _ => Raise TypeError
  end.

(** [base64.b64encode(b).decode('utf-8')]. *)
Definition b64encode (b : list byte) : string := Base64.b2a_base64 b.

(* ===================================================================== *)
(** ** Effects: the shared cell, the two sockets, the console *)
(* ===================================================================== *)

(** What the closures of [handle_media_stream] share: the [nonlocal]
    variable [stream_sid] and the state of the AI connection as seen
    through [openai_ws.open]. *)
Record store : Type := mkStore {
  stream_sid : json;
  openai_ws_open : bool
}.

(** The lines written by [print]. *)
Inductive diagnostic : Type :=
| Incoming_stream_has_started (sid : json)
| Client_disconnected
| Received_event (ty response : json)
| Session_updated_successfully (response : json)
| Error_processing_audio_data (e : exn)
| Error_in_send_to_twilio (e : exn).

(** Calls made on the outside world, in the order they are made.
    [websocket_close] is never issued by either coroutine; it is listed so
    that its absence can be stated.  A trace records that a call is made;
    an exception raised by [websocket.send_json] itself is not
    represented. *)
Inductive action : Type :=
| openai_ws_send (m : json)        (* await openai_ws.send(json.dumps(m)) *)
| openai_ws_close                  (* await openai_ws.close() *)
| websocket_send_json (m : json)   (* await websocket.send_json(m) *)
| websocket_close                  (* await websocket.close() *)
| print (d : diagnostic).

(** Computations: read and write the store, emit actions, return or raise.
    The actions emitted before an exception are kept. *)
Definition M (A : Type) : Type := store -> list action * store * result A.

Definition ret {A} (a : A) : M A := fun s => ([], s, Ok a).

Definition raise {A} (e : exn) : M A := fun s => ([], s, Raise e).

Definition bind {A B} (m : M A) (f : A -> M B) : M B :=
  fun s =>
    match m s with
    | (t1, s1, Ok a) =>
        match f a s1 with
        | (t2, s2, r) => (t1 ++ t2, s2, r)
        end
    | (t1, s1, Raise e) => (t1, s1, Raise e)
    end.

Notation "x <- m ;; k" := (bind m (fun x => k))
  (at level 61, m at next level, right associativity).
Notation "m ;;; k" := (bind m (fun _ => k))
  (at level 61, right associativity).

(** [try: m except <class>: h], where [h e] re-raises [e] when the class
    does not match. *)
Definition try_except {A} (m : M A) (h : exn -> M A) : M A :=
  fun s =>
    match m s with
    | (t1, s1, Ok a) => (t1, s1, Ok a)
    | (t1, s1, Raise e) =>
        match h e s1 with
        | (t2, s2, r) => (t1 ++ t2, s2, r)
        end
    end.

Definition lift {A} (r : result A) : M A := fun s => ([], s, r).

Definition emit (a : action) : M unit := fun s => ([a], s, Ok tt).

Definition get_stream_sid : M json := fun s => ([], s, Ok (stream_sid s)).

Definition set_stream_sid (v : json) : M unit :=
  fun s => ([], mkStore v (openai_ws_open s), Ok tt).

Definition get_open : M bool := fun s => ([], s, Ok (openai_ws_open s)).

(** [await openai_ws.send(...)]: fails on a connection that is not open.
    A send that fails although [openai_ws.open] was just read as true is
    not represented. *)
Definition ws_send (m : json) : M unit :=
  fun s =>
    if openai_ws_open s then ([openai_ws_send m], s, Ok tt)
    else ([], s, Raise ConnectionClosed).

(** [await openai_ws.close()]. *)
Definition ws_close : M unit :=
  fun s => ([openai_ws_close], mkStore (stream_sid s) false, Ok tt).

(* ===================================================================== *)
(** ** The two coroutines *)
(* ===================================================================== *)

Definition LOG_EVENT_TYPES : list string :=
  [ "response.content.done"; "rate_limits.updated"; "response.done";
    "input_audio_buffer.committed"; "input_audio_buffer.speech_stopped";
    "input_audio_buffer.speech_started"; "session.created" ].

(** One turn of an [async for]: the iterator yields a message, is
    exhausted, or raises. *)
Inductive anext : Type :=
| Yield (message : text)
| StopAsyncIteration
| Throw (e : exn).

(** Where a coroutine stands: suspended in its loop, returned, or ended
    by an exception it did not catch. *)
Inductive task : Type :=
| Running
| Returned
| Failed (e : exn).

(** The body of the loop of [receive_from_twilio]. *)
Definition receive_from_twilio_body (message : text) : M unit :=
  data <- lift (json_loads message) ;;
  ev <- lift (getitem data "event") ;;
  is_open <- get_open ;;
  if py_eq_str ev "media" && is_open then
    media <- lift (getitem data "media") ;;
    payload <- lift (getitem media "payload") ;;
    let audio_append :=
      JObj [ ("type", JStr "input_audio_buffer.append");
             ("audio", payload) ] in
    ws_send audio_append
  else
    ev' <- lift (getitem data "event") ;;
    if py_eq_str ev' "start" then
      start <- lift (getitem data "start") ;;
      sid <- lift (getitem start "streamSid") ;;
      set_stream_sid sid ;;;
      sid' <- get_stream_sid ;;
      emit (print (Incoming_stream_has_started sid'))
    else ret tt.

(** [receive_from_twilio], resumed with the next outcome of
    [websocket.iter_text()]: the [try] around the loop catches
    [WebSocketDisconnect] only. *)
Definition receive_from_twilio (it : anext) : M task :=
  try_except
    match it with
    | Yield message => receive_from_twilio_body message ;;; ret Running
    | StopAsyncIteration => ret Returned
    | Throw e => raise e
    end
    (fun e =>
       match e with
       | WebSocketDisconnect =>
           emit (print Client_disconnected) ;;;
           is_open <- get_open ;;
           (if is_open then ws_close else ret tt) ;;;
           ret Returned
       | _ => raise e
       end).

(** The body of the loop of [send_to_twilio]. *)
Definition send_to_twilio_body (openai_message : text) : M unit :=
  response <- lift (json_loads openai_message) ;;
  ty <- lift (getitem response "type") ;;
  (if py_in ty LOG_EVENT_TYPES
   then ty' <- lift (getitem response "type") ;;
        emit (print (Received_event ty' response))
   else ret tt) ;;;
  ty <- lift (getitem response "type") ;;
  (if py_eq_str ty "session.updated"
   then emit (print (Session_updated_successfully response))
   else ret tt) ;;;
  ty <- lift (getitem response "type") ;;
  has_delta <- (if py_eq_str ty "response.audio.delta"
                then d <- lift (dict_get response "delta") ;; ret (truthy d)
                else ret false) ;;
  if has_delta then
    try_except
      (delta <- lift (getitem response "delta") ;;
       raw <- lift (b64decode delta) ;;
       let audio_payload := b64encode raw in
       sid <- get_stream_sid ;;
       let audio_delta :=
         JObj [ ("event", JStr "media");
                ("streamSid", sid);
                ("media", JObj [ ("payload", JStr audio_payload) ]) ] in
       emit (websocket_send_json audio_delta))
      (fun e => emit (print (Error_processing_audio_data e)))
  else ret tt.

(** [send_to_twilio], resumed with the next outcome of iterating
    [openai_ws]: the [try] around the loop catches every [Exception]. *)
Definition send_to_twilio (it : anext) : M task :=
  try_except
    match it with
    | Yield openai_message => send_to_twilio_body openai_message ;;; ret Running
    | StopAsyncIteration => ret Returned
    | Throw e => raise e
    end
    (fun e => emit (print (Error_in_send_to_twilio e)) ;;; ret Returned).

(* ===================================================================== *)
(** ** The session: both coroutines under [asyncio.gather] *)
(* ===================================================================== *)

Record session : Type := mkSession {
  cell : store;
  receive_task : task;   (* receive_from_twilio *)
  send_task : task       (* send_to_twilio *)
}.

(** What the event loop delivers.  A coroutine that is no longer running
    does not see the events of its socket. *)
Inductive event : Type :=
| Twilio (it : anext)    (* next outcome of websocket.iter_text() *)
| OpenAI (it : anext)    (* next outcome of iterating openai_ws *)
| OpenAI_down.           (* the AI connection leaves the OPEN state *)

Definition settle (r : result task) : task :=
  match r with
  | Ok t => t
  | Raise e => Failed e
  end.

Definition step (ss : session) (ev : event) : list action * session :=
  match ev with
  | Twilio it =>
      match receive_task ss with
      | Running =>
          match receive_from_twilio it (cell ss) with
          | (t, s', r) => (t, mkSession s' (settle r) (send_task ss))
          end
      | _ => ([], ss)
      end
  | OpenAI it =>
      match send_task ss with
      | Running =>
          match send_to_twilio it (cell ss) with
          | (t, s', r) => (t, mkSession s' (receive_task ss) (settle r))
          end
      | _ => ([], ss)
      end
  | OpenAI_down =>
      ([], mkSession (mkStore (stream_sid (cell ss)) false)
             (receive_task ss) (send_task ss))
  end.

Fixpoint run (ss : session) (evs : list event) : list action * session :=
  match evs with
  | [] => ([], ss)
  | ev :: rest =>
      match step ss ev with
      | (t1, ss1) =>
          match run ss1 rest with
          | (t2, ss2) => (t1 ++ t2, ss2)
          end
      end
  end.

(** The state in which [asyncio.gather] starts the two coroutines: the AI
    connection has just been opened and configured, [stream_sid = None]. *)
Definition initial : session :=
  mkSession (mkStore JNull true) Running Running.

(** [handle_media_stream] from the point where both coroutines start. *)
Definition handle_media_stream (evs : list event) : list action * session :=
  run initial evs.

(** The messages handed to [openai_ws.send], oldest first. *)
Fixpoint to_openai (t : list action) : list json :=
  match t with
  | [] => []
  | openai_ws_send m :: rest => m :: to_openai rest
  | _ :: rest => to_openai rest
  end.

(** The messages handed to [websocket.send_json], oldest first. *)
Fixpoint to_twilio (t : list action) : list json :=
  match t with
  | [] => []
  | websocket_send_json m :: rest => m :: to_twilio rest
  | _ :: rest => to_twilio rest
  end.

(** The number of [openai_ws.close()] calls. *)
Fixpoint closes (t : list action) : nat :=
  match t with
  | [] => O
  | openai_ws_close :: rest => S (closes rest)
  | _ :: rest => closes rest
  end.

(** No call closes the telephony socket. *)
Fixpoint keeps_telephony (t : list action) : bool :=
  match t with
  | [] => true
  | websocket_close :: _ => false
  | _ :: rest => keeps_telephony rest
  end.

(* ===================================================================== *)
(** ** The events of the data model and their wire format *)
(* ===================================================================== *)

(** The variants under which the specification reads the messages of the
    two sockets.  These are not used by the coroutines; the theorems below
    relate them to what the coroutines do. *)
Inductive TelephonyEvent : Type :=
| start (streamId : json)
| media (payload : json)
| other_event.

Inductive AIEvent : Type :=
| sessionUpdated
| audioDelta (payload : json)
| loggable (typeName : string)
| other.

Definition field (key : string) (v : json) : option json :=
  match v with
  | JObj items => dict_lookup key items
  | _ => None
  end.

(** [{event: "start", start: {streamSid}}], [{event: "media", media:
    {payload}}], any other event name; further fields are allowed. *)
Definition telephony_event (v : json) : option TelephonyEvent :=
  match field "event" v with
  | None => None
  | Some name =>
      if py_eq_str name "media" then
        match field "media" v with
        | Some m => option_map media (field "payload" m)
        | None => None
        end
      else if py_eq_str name "start" then
        match field "start" v with
        | Some st => option_map start (field "streamSid" st)
        | None => None
        end
      else Some other_event
  end.

(** [{type, delta?}]; a missing [delta] reads as [None]. *)
Definition ai_event (v : json) : option AIEvent :=
  match field "type" v with
  | None => None
  | Some (JStr ty) =>
      if String.eqb ty "session.updated" then Some sessionUpdated
      else if String.eqb ty "response.audio.delta" then
        Some (audioDelta match field "delta" v with
                         | Some d => d
                         | None => JNull
                         end)
      else if existsb (String.eqb ty) LOG_EVENT_TYPES then Some (loggable ty)
      else Some other
  | Some _ => Some other
  end.

(** The command sent to the AI connection for one audio frame. *)
Definition append (payload : json) : json :=
  JObj [ ("type", JStr "input_audio_buffer.append"); ("audio", payload) ].

(** The media event sent back to the telephony connection. *)
Definition media_out (sid : json) (payload : string) : json :=
  JObj [ ("event", JStr "media");
         ("streamSid", sid);
         ("media", JObj [ ("payload", JStr payload) ]) ].

(** A telephony message arrives / an AI message arrives. *)
Definition from_twilio (v : json) : event := Twilio (Yield (JSONText v)).
Definition from_openai (v : json) : event := OpenAI (Yield (JSONText v)).

(** The payloads of the media events among the telephony messages of a
    sequence, in order of arrival. *)
Fixpoint media_payloads (evs : list event) : list json :=
  match evs with
  | [] => []
  | Twilio (Yield (JSONText v)) :: rest =>
      match telephony_event v with
      | Some (media p) => p :: media_payloads rest
      | _ => media_payloads rest
      end
  | _ :: rest => media_payloads rest
  end.





(** A payload in canonical form: the encoding of some bytes. *)
Definition canonical (s : string) : Prop :=
  exists raw : list byte, s = b64encode raw.

(** Whether an event is a start event. *)
Definition is_start (ev : event) : bool :=
  match ev with
  | Twilio (Yield (JSONText v)) =>
      match telephony_event v with
      | Some (start _) => true
      | _ => false
      end
  | _ => false
  end.



(** The smallest message of each variant. *)
Definition start_message (sid : string) : json :=
  JObj [ ("event", JStr "start"); ("start", JObj [ ("streamSid", JStr sid) ]) ].

Definition media_message (payload : string) : json :=
  JObj [ ("event", JStr "media"); ("media", JObj [ ("payload", JStr payload) ]) ].

Definition session_updated_message : json :=
  JObj [ ("type", JStr "session.updated") ].

Definition audio_delta_message (delta : string) : json :=
  JObj [ ("type", JStr "response.audio.delta"); ("delta", JStr delta) ].





(* ===================================================================== *)
(** ** Start-up: environment, PDF texts, instructions *)
(* ===================================================================== *)

(** What can stop the module from loading. *)
Inductive startup_exn : Type :=
| OSError                  (* os.listdir on a directory that cannot be read *)
| PDFOpenError             (* pdfplumber.open on a file it cannot read *)
| Concat_TypeError         (* pdf_content += None *)
| Port_ValueError          (* int(...) on a PORT that is not a number *)
| Missing_key_ValueError.  (* raise ValueError('Missing the OpenAI API key ...') *)

(** The [PDF] directory as [parse_pdf] sees it: the names [os.listdir]
    returns ([None] when it raises), and for a file name what
    [page.extract_text()] returns for each page of the document
    ([None] when [pdfplumber.open] raises; a page without text may give
    [None] instead of a [str]). *)
Record files : Type := mkFiles {
  listdir : option (list string);
  extract_text : string -> option (list (option string))
}.

(** [s.endswith(suffix)]. *)
Fixpoint endswith (s suffix : string) : bool :=
  String.eqb s suffix ||
  match s with
  | EmptyString => false
  | String _ rest => endswith rest suffix
  end.

(** [for page in pdf.pages: pdf_content += page.extract_text()]: the
    content read so far and the exception, if any, that stopped the loop. *)
Fixpoint read_pages (pages : list (option string)) (pdf_content : string)
    : string * option startup_exn :=
  match pages with
  | [] => (pdf_content, None)
  | Some page_text :: rest => read_pages rest (pdf_content ++ page_text)%string
  | None :: _ => (pdf_content, Some Concat_TypeError)
  end.

(** [for pdf_file in pdf_files: with pdfplumber.open(...) as pdf: ...]. *)
Fixpoint read_files (fs : files) (pdf_files : list string) (pdf_content : string)
    : string * option startup_exn :=
  match pdf_files with
  | [] => (pdf_content, None)
  | pdf_file :: rest =>
      match extract_text fs pdf_file with
      | None => (pdf_content, Some PDFOpenError)
      | Some pages =>
          match read_pages pages pdf_content with
          | (content, None) => read_files fs rest content
          | (content, Some e) => (content, Some e)
          end
      end
  end.

(** [parse_pdf()], acting on the global [pdf_content]. *)
Definition parse_pdf (fs : files) (pdf_content : string)
    : string * option startup_exn :=
  match listdir fs with
  | None => (pdf_content, Some OSError)
  | Some names =>
      let pdf_files := filter (fun f => endswith f ".pdf") names in
      read_files fs pdf_files pdf_content
  end.

(** The texts [parse_pdf] is after: every page of every listed file whose
    name ends in [.pdf], in order; a page without text counts as empty. *)
Definition page_texts (fs : files) (names : list string) : list string :=
  flat_map (fun f =>
              if endswith f ".pdf" then
                match extract_text fs f with
                | Some pages =>
                    map (fun p => match p with Some t => t | None => "" end) pages
                | None => []
                end
              else [])
           names.

(** [SYSTEM_MESSAGE]. *)
Definition SYSTEM_MESSAGE (pdf_content : string) : string :=
  ("You are a helpful AI assistant. If the question is not in this text, do not answer it:"
   ++ pdf_content)%string.

Definition VOICE : string := "alloy".

(** The process environment after [load_dotenv()]. *)
Record environ : Type := mkEnviron {
  env_OPENAI_API_KEY : option string;
  env_PORT : option string;
  env_files : files
}.

(** The module globals once the module has loaded. *)
Record globals : Type := mkGlobals {
  OPENAI_API_KEY : string;
  PORT : Z;
  pdf_content : string
}.

(** The module body, top to bottom: the environment is read and [PORT]
    converted (lines 20-21), the PDFs are parsed (line 38), and only then
    is the key checked (line 57).  [py_int] is Python's [int] on a [str]. *)
Definition load_module (py_int : string -> option Z) (env : environ)
    : globals + startup_exn :=
  let key := env_OPENAI_API_KEY env in
  match
    match env_PORT env with
    | None => Some 5050%Z
    | Some s => py_int s
    end
  with
  | None => inr Port_ValueError
  | Some port =>
      match parse_pdf (env_files env) "" with
      | (_, Some e) => inr e
      | (content, None) =>
          match key with
          | None => inr Missing_key_ValueError
          | Some k =>
              if String.eqb k "" then inr Missing_key_ValueError
              else inl (mkGlobals k port content)
          end
      end
  end.

(* ===================================================================== *)
(** ** The session configuration and the opening of a call *)
(* ===================================================================== *)

(** The [float] written [0.8]. *)
Definition temperature : spec_float :=
  S754_finite false 7205759403792794 (-53).

(** The dict built by [send_session_update]. *)
Definition session_update (instructions : string) : json :=
  JObj [ ("type", JStr "session.update");
         ("session",
          JObj [ ("turn_detection", JObj [ ("type", JStr "server_vad") ]);
                 ("input_audio_format", JStr "g711_ulaw");
                 ("output_audio_format", JStr "g711_ulaw");
                 ("voice", JStr VOICE);
                 ("instructions", JStr instructions);
                 ("modalities", JArr [ JStr "text"; JStr "audio" ]);
                 ("temperature", JFloat temperature) ]) ].

(** What [handle_media_stream] does as a whole: its own calls, and the
    calls the two coroutines make. *)
Inductive call_action : Type :=
| print_Client_connected                    (* print("Client connected") *)
| websocket_accept                          (* await websocket.accept() *)
| print_Sending_session_update (m : json)   (* print('Sending session update:', ...) *)
| relay (a : action).                       (* a call made on the way *)

(** [send_session_update(openai_ws)], given what [openai_ws.open] is when
    it runs. *)
Definition send_session_update (instructions : string) (is_open : bool)
    : list call_action * result unit :=
  let m := session_update instructions in
  match ws_send m (mkStore JNull is_open) with
  | (t, _, r) => (print_Sending_session_update m :: map relay t, r)
  end.

(** What [websockets.connect] comes to: it raises, or it gives a
    connection, which may already have gone by the time it is first used. *)
Inductive connection : Type :=
| Refused (e : exn)
| Connected (is_open : bool).

(** [handle_media_stream] from its first line: accept the telephony
    socket, connect to the AI endpoint, send the session configuration,
    and start the two coroutines.  The result is the exception that ends
    the handler before the coroutines start, or the state they reach. *)
Definition media_stream (instructions : string) (c : connection)
    (evs : list event) : list call_action * result session :=
  match c with
  | Refused e => ([print_Client_connected; websocket_accept], Raise e)
  | Connected is_open =>
      match send_session_update instructions is_open with
      | (t, Ok _) =>
          match handle_media_stream evs with
          | (t', ss) =>
              (print_Client_connected :: websocket_accept :: t ++ map relay t',
               Ok ss)
          end
      | (t, Raise e) =>
          (print_Client_connected :: websocket_accept :: t, Raise e)
      end
  end.

(** The calls the coroutines and [send_session_update] made. *)
Fixpoint relayed (t : list call_action) : list action :=
  match t with
  | [] => []
  | relay a :: rest => a :: relayed rest
  | _ :: rest => relayed rest
  end.

(* ===================================================================== *)
(** ** What the telephony side is owed *)
(* ===================================================================== *)

(** One list is the other with some elements left out. *)
Inductive subseq {A : Type} : list A -> list A -> Prop :=
| subseq_nil : subseq [] []
| subseq_skip x l1 l2 : subseq l1 l2 -> subseq l1 (x :: l2)
| subseq_keep x l1 l2 : subseq l1 l2 -> subseq (x :: l1) (x :: l2).

(** The media event an AI message calls for, if any: an audio delta with a
    payload that is true in the Python sense and decodes. *)
Definition forwarded (sid : json) (ev : event) : list json :=
  match ev with
  | OpenAI (Yield (JSONText v)) =>
      match ai_event v with
      | Some (audioDelta d) =>
          if truthy d then
            match b64decode d with
            | Ok raw => [media_out sid (b64encode raw)]
            | Raise _ => []
            end
          else []
      | _ => []
      end
  | _ => []
  end.



(** The characters the decoder looks at: the alphabet and the pad. *)
Definition significant (c : ascii) : bool :=
  Ascii.eqb c Base64.BASE64_PAD || (Base64.table_a2b_base64 c <? 64).

Fixpoint strip (s : string) : string :=
  match s with
  | EmptyString => EmptyString
  | String c rest => if significant c then String c (strip rest) else strip rest
  end.

(** All the strings of a list, one after the other. *)
Definition join (l : list string) : string :=
  fold_right String.append "" l.

(** Every listed file whose name ends in [.pdf] can be opened and each of
    its pages has text. *)
Definition readable (fs : files) (names : list string) : bool :=
  forallb (fun f =>
             if endswith f ".pdf" then
               match extract_text fs f with
               | Some pages =>
                   forallb (fun p => match p with Some _ => true | None => false end) pages
               | None => false
               end
             else true)
          names.

(* ===================================================================== *)
(** ** The telephony socket as starlette hands it over *)
(* ===================================================================== *)

(** What [await websocket.receive_text()] comes to. *)
Inductive received : Type :=
| Text (message : text)
| Raises (e : exn).

(** [websocket.iter_text()]: starlette wraps its loop,
    [while True: yield await self.receive_text()], in
    [try: ... except WebSocketDisconnect: pass].  A disconnection of the
    peer therefore ends the iteration; it is not raised into the loop that
    iterates. *)
Definition iter_text (r : received) : anext :=
  match r with
  | Text message => Yield message
  | Raises WebSocketDisconnect => StopAsyncIteration
  | Raises e => Throw e
  end.

(** The events [iter_text] can deliver, and all events of the AI side. *)
Definition through_iter_text (ev : event) : bool :=
  match ev with
  | Twilio (Throw WebSocketDisconnect) => false
  | _ => true
  end.

(** Bounded universal quantification over [N], used to settle facts about
    bytes and sextets by evaluation. *)
Fixpoint below (n : nat) (p : N -> bool) : bool :=
  match n with
  | O => true
  | S k => p (N.of_nat k) && below k p
  end.

(* ===================================================================== *)
(** * Properties *)
(* ===================================================================== *)

(** ** Base64: encoding followed by decoding *)

Lemma below_spec (n : nat) (p : N -> bool) :
  below n p = true -> forall x, x < N.of_nat n -> p x = true.
Proof.
  induction n as [|k IH]; intros Hb x Hx.
  - simpl in Hx. lia.
  - simpl in Hb. apply andb_true_iff in Hb as [Hk Hrest].
    destruct (N.eq_dec x (N.of_nat k)) as [->|Hne]; [exact Hk|].
    apply IH; [exact Hrest|lia].
Qed.

Lemma byte_lt_256 (x : byte) : Byte.to_N x < 256.
Proof. pose proof (Byte.to_N_bounded x). lia. Qed.

Lemma u8_to_N (x : byte) : Base64.u8 (Byte.to_N x) = x.
Proof.
  unfold Base64.u8. rewrite N.mod_small by apply byte_lt_256.
  now rewrite Byte.of_to_N.
Qed.

(** The two tables are inverse on sextets, and no sextet is written as the
    pad character or outside ASCII. *)
Lemma b2a_sextet (v : N) :
  v < 64 ->
  Base64.table_a2b_base64 (Base64.b2a v) = v /\
  Ascii.eqb (Base64.b2a v) Base64.BASE64_PAD = false /\
  N_of_ascii (Base64.b2a v) < 128.
Proof.
  intros Hv.
  pose proof (below_spec 64
    (fun v => (Base64.table_a2b_base64 (Base64.b2a v) =? v)
                        && negb (Ascii.eqb (Base64.b2a v) Base64.BASE64_PAD)
                        && (N_of_ascii (Base64.b2a v) <? 128))
    ltac:(vm_compute; reflexivity) v Hv) as H.
  cbv beta in H.
  apply andb_true_iff in H as [H H3]. apply andb_true_iff in H as [H1 H2].
  apply N.eqb_eq in H1. apply negb_true_iff in H2. apply N.ltb_lt in H3.
  auto.
Qed.

(** The four sextets of a group of three bytes. *)
Lemma sextet_bounds (a b c : N) :
  a < 256 -> b < 256 -> c < 256 ->
  N.shiftr a 2 < 64 /\
  N.lor (N.shiftl (N.land a 3) 4) (N.shiftr b 4) < 64 /\
  N.shiftl (N.land a 3) 4 < 64 /\
  N.lor (N.shiftl (N.land b 15) 2) (N.shiftr c 6) < 64 /\
  N.shiftl (N.land b 15) 2 < 64 /\
  N.land c 63 < 64.
Proof.
  intros Ha Hb Hc.
  pose proof (below_spec 256
    (fun a => below 256 (fun b =>
            (N.shiftr a 2 <? 64)
            && (N.lor (N.shiftl (N.land a 3) 4) (N.shiftr b 4) <? 64)
            && (N.shiftl (N.land a 3) 4 <? 64)
            && (N.land a 63 <? 64)))
    ltac:(vm_compute; reflexivity) a Ha) as H1.
  cbv beta in H1. pose proof (below_spec _ _ H1 b Hb) as H1b. cbv beta in H1b.
  pose proof (below_spec 256
    (fun b => below 256 (fun c =>
            (N.lor (N.shiftl (N.land b 15) 2) (N.shiftr c 6) <? 64)
            && (N.shiftl (N.land b 15) 2 <? 64)
            && (N.land c 63 <? 64)))
    ltac:(vm_compute; reflexivity) b Hb) as H2.
  cbv beta in H2. pose proof (below_spec _ _ H2 c Hc) as H2c. cbv beta in H2c.
  repeat match goal with
         | H : _ && _ = true |- _ => apply andb_true_iff in H as [? ?]
         | H : (_ <? _) = true |- _ => apply N.ltb_lt in H
         end.
  repeat split; assumption.
Qed.

(** Reassembling the bytes from the sextets, as the decoder does it. *)
Lemma regroup_first (a b : N) :
  a < 256 -> b < 256 ->
  N.lor (N.shiftl (N.shiftr a 2) 2)
        (N.shiftr (N.lor (N.shiftl (N.land a 3) 4) (N.shiftr b 4)) 4) = a /\
  N.lor (N.shiftl (N.shiftr a 2) 2)
        (N.shiftr (N.shiftl (N.land a 3) 4) 4) = a /\
  N.land (N.lor (N.shiftl (N.land a 3) 4) (N.shiftr b 4)) 15 = N.shiftr b 4.
Proof.
  intros Ha Hb.
  pose proof (below_spec 256
    (fun a => below 256 (fun b =>
            (N.lor (N.shiftl (N.shiftr a 2) 2)
               (N.shiftr (N.lor (N.shiftl (N.land a 3) 4) (N.shiftr b 4)) 4) =? a)
            && (N.lor (N.shiftl (N.shiftr a 2) 2)
                  (N.shiftr (N.shiftl (N.land a 3) 4) 4) =? a)
            && (N.land (N.lor (N.shiftl (N.land a 3) 4) (N.shiftr b 4)) 15
                =? N.shiftr b 4)))
    ltac:(vm_compute; reflexivity) a Ha) as H.
  cbv beta in H. pose proof (below_spec _ _ H b Hb) as Hab. cbv beta in Hab.
  apply andb_true_iff in Hab as [Hab H3]. apply andb_true_iff in Hab as [H1 H2].
  apply N.eqb_eq in H1, H2, H3. auto.
Qed.

Lemma regroup_second (b c : N) :
  b < 256 -> c < 256 ->
  N.lor (N.shiftl (N.shiftr b 4) 4)
        (N.shiftr (N.lor (N.shiftl (N.land b 15) 2) (N.shiftr c 6)) 2) = b /\
  N.lor (N.shiftl (N.shiftr b 4) 4)
        (N.shiftr (N.shiftl (N.land b 15) 2) 2) = b /\
  N.land (N.lor (N.shiftl (N.land b 15) 2) (N.shiftr c 6)) 3 = N.shiftr c 6 /\
  N.lor (N.shiftl (N.shiftr c 6) 6) (N.land c 63) = c.
Proof.
  intros Hb Hc.
  pose proof (below_spec 256
    (fun b => below 256 (fun c =>
            (N.lor (N.shiftl (N.shiftr b 4) 4)
               (N.shiftr (N.lor (N.shiftl (N.land b 15) 2) (N.shiftr c 6)) 2) =? b)
            && (N.lor (N.shiftl (N.shiftr b 4) 4)
                  (N.shiftr (N.shiftl (N.land b 15) 2) 2) =? b)
            && (N.land (N.lor (N.shiftl (N.land b 15) 2) (N.shiftr c 6)) 3
                =? N.shiftr c 6)
            && (N.lor (N.shiftl (N.shiftr c 6) 6) (N.land c 63) =? c)))
    ltac:(vm_compute; reflexivity) b Hb) as H.
  cbv beta in H. pose proof (below_spec _ _ H c Hc) as Hbc. cbv beta in Hbc.
  apply andb_true_iff in Hbc as [Hbc H4]. apply andb_true_iff in Hbc as [Hbc H3].
  apply andb_true_iff in Hbc as [H1 H2].
  apply N.eqb_eq in H1, H2, H3, H4. auto.
Qed.

(** Induction over a list three elements at a time. *)
Lemma list_ind3 {A : Type} (P : list A -> Prop) :
  P [] ->
  (forall x, P [x]) ->
  (forall x y, P [x; y]) ->
  (forall x y z l, P l -> P (x :: y :: z :: l)) ->
  forall l, P l.
Proof.
  intros H0 H1 H2 H3.
  fix IH 1.
  intros [|x [|y [|z l]]].
  - exact H0.
  - apply H1.
  - apply H2.
  - apply H3. apply IH.
Qed.

(** One step of the decoder on the character of a sextet. *)
Lemma a2b_loop_sextet (v : N) (rest : string) (quad_pos leftchar pads : N)
    (bin_data : list byte) :
  v < 64 ->
  Base64.a2b_loop (String (Base64.b2a v) rest) quad_pos leftchar pads bin_data =
  match quad_pos with
  | 0 => Base64.a2b_loop rest 1 v 0 bin_data
  | 1 =>
      Base64.a2b_loop rest 2 (N.land v 15) 0
        (bin_data ++ [Base64.u8 (N.lor (N.shiftl leftchar 2) (N.shiftr v 4))])
  | 2 =>
      Base64.a2b_loop rest 3 (N.land v 3) 0
        (bin_data ++ [Base64.u8 (N.lor (N.shiftl leftchar 4) (N.shiftr v 2))])
  | _ =>
      Base64.a2b_loop rest 0 0 0
        (bin_data ++ [Base64.u8 (N.lor (N.shiftl leftchar 6) v)])
  end.
Proof.
  intros Hv. destruct (b2a_sextet v Hv) as (Htab & Hpad & _).
  cbn [Base64.a2b_loop]. rewrite Hpad, Htab.
  destruct (N.leb_spec 64 v) as [Hle|_]; [lia|]. reflexivity.
Qed.

(** One step of the decoder on a pad character. *)
Lemma a2b_loop_pad (rest : string) (quad_pos leftchar pads : N)
    (bin_data : list byte) :
  Base64.a2b_loop (String Base64.BASE64_PAD rest) quad_pos leftchar pads bin_data =
  if 2 <=? quad_pos then
    if 4 <=? quad_pos + (pads + 1) then Ok bin_data
    else Base64.a2b_loop rest quad_pos leftchar (pads + 1) bin_data
  else Base64.a2b_loop rest quad_pos leftchar pads bin_data.
Proof. reflexivity. Qed.

(** Decoding an encoding gives the bytes back, after whatever was decoded
    before. *)
Lemma a2b_loop_b2a (bin : list byte) :
  forall done : list byte,
    Base64.a2b_loop (Base64.b2a_base64 bin) 0 0 0 done = Ok (done ++ bin).
Proof.
  induction bin as [|x|x y|x y z rest IH] using list_ind3; intros done.
  - simpl. now rewrite app_nil_r.
  - pose proof (byte_lt_256 x) as Hx.
    destruct (sextet_bounds _ 0 0 Hx) as (S0 & _ & S1 & _); try lia.
    destruct (regroup_first _ 0 Hx) as (_ & R1 & _); try lia.
    cbn [Base64.b2a_base64].
    rewrite (a2b_loop_sextet _ _ _ _ _ _ S0).
    rewrite (a2b_loop_sextet _ _ _ _ _ _ S1).
    rewrite R1, u8_to_N.
    rewrite !a2b_loop_pad. reflexivity.
  - pose proof (byte_lt_256 x) as Hx. pose proof (byte_lt_256 y) as Hy.
    destruct (sextet_bounds _ _ 0 Hx Hy) as (S0 & S1 & _ & _ & S2 & _); try lia.
    destruct (regroup_first _ _ Hx Hy) as (R1 & _ & R2).
    destruct (regroup_second _ 0 Hy) as (_ & R3 & _); try lia.
    cbn [Base64.b2a_base64].
    rewrite (a2b_loop_sextet _ _ _ _ _ _ S0).
    rewrite (a2b_loop_sextet _ _ _ _ _ _ S1).
    rewrite (a2b_loop_sextet _ _ _ _ _ _ S2).
    rewrite R1, R2, R3, !u8_to_N.
    rewrite a2b_loop_pad. cbn. now rewrite <- app_assoc.
  - pose proof (byte_lt_256 x) as Hx. pose proof (byte_lt_256 y) as Hy.
    pose proof (byte_lt_256 z) as Hz.
    destruct (sextet_bounds _ _ _ Hx Hy Hz) as (S0 & S1 & _ & S2 & _ & S3).
    destruct (regroup_first _ _ Hx Hy) as (R1 & _ & R2).
    destruct (regroup_second _ _ Hy Hz) as (R3 & _ & R4 & R5).
    cbn [Base64.b2a_base64].
    rewrite (a2b_loop_sextet _ _ _ _ _ _ S0).
    rewrite (a2b_loop_sextet _ _ _ _ _ _ S1).
    rewrite (a2b_loop_sextet _ _ _ _ _ _ S2).
    rewrite (a2b_loop_sextet _ _ _ _ _ _ S3).
    rewrite R1, R2, R3, R4, R5, !u8_to_N.
    rewrite IH. now rewrite <- !app_assoc.
Qed.

Lemma a2b_b2a (bin : list byte) :
  Base64.a2b_base64 (Base64.b2a_base64 bin) = Ok bin.
Proof. unfold Base64.a2b_base64. now rewrite a2b_loop_b2a. Qed.

(** An encoding is plain ASCII. *)
Lemma b2a_is_ascii (bin : list byte) :
  Base64.is_ascii (Base64.b2a_base64 bin) = true.
Proof.
  assert (Hs : forall v rest, v < 64 -> Base64.is_ascii rest = true ->
               Base64.is_ascii (String (Base64.b2a v) rest) = true).
  { intros v rest Hv Hrest. cbn [Base64.is_ascii]. rewrite Hrest.
    destruct (b2a_sextet v Hv) as (_ & _ & H). apply N.ltb_lt in H.
    now rewrite H. }
  induction bin as [|x|x y|x y z rest IH] using list_ind3.
  - reflexivity.
  - pose proof (byte_lt_256 x) as Hx.
    destruct (sextet_bounds _ 0 0 Hx) as (S0 & _ & S1 & _); try lia.
    cbn [Base64.b2a_base64]. auto.
  - pose proof (byte_lt_256 x) as Hx. pose proof (byte_lt_256 y) as Hy.
    destruct (sextet_bounds _ _ 0 Hx Hy) as (S0 & S1 & _ & _ & S2 & _); try lia.
    cbn [Base64.b2a_base64]. auto.
  - pose proof (byte_lt_256 x) as Hx. pose proof (byte_lt_256 y) as Hy.
    pose proof (byte_lt_256 z) as Hz.
    destruct (sextet_bounds _ _ _ Hx Hy Hz) as (S0 & S1 & _ & S2 & _ & S3).
    cbn [Base64.b2a_base64]. auto.
Qed.

(** [b64decode] undoes [b64encode]. *)
Lemma b64decode_b64encode (raw : list byte) :
  b64decode (JStr (b64encode raw)) = Ok raw.
Proof.
  unfold b64decode, b64encode. now rewrite b2a_is_ascii, a2b_b2a.
Qed.

(** ** The coroutines on the events of the data model *)

Lemma getitem_field (v : json) (key : string) (x : json) :
  field key v = Some x -> getitem v key = Ok x.
Proof.
  destruct v; simpl; try discriminate. now intros ->.
Qed.

Lemma dict_get_field (v : json) (key : string) (x : json) :
  field key v = Some x -> dict_get v key = Ok x.
Proof.
  destruct v; simpl; try discriminate. now intros ->.
Qed.

Lemma dict_get_missing (v : json) (key ty : string) (x : json) :
  field ty v = Some x -> field key v = None -> dict_get v key = Ok JNull.
Proof.
  destruct v; simpl; try discriminate. now intros _ ->.
Qed.

Lemma py_eq_str_true (v : json) (s : string) :
  py_eq_str v s = true -> v = JStr s.
Proof.
  destruct v; simpl; try discriminate.
  intros H. apply String.eqb_eq in H. now subst.
Qed.

Ltac unfold_M :=
  unfold receive_from_twilio, receive_from_twilio_body,
    send_to_twilio, send_to_twilio_body,
    try_except, bind, lift, ret, raise, emit,
    get_open, get_stream_sid, set_stream_sid, ws_send, ws_close,
    json_loads in *.

Ltac split_match_hyp H :=
  repeat match type of H with
         | context [match ?x with _ => _ end] =>
             destruct x eqn:?; try discriminate H
         | context [if ?x then _ else _] =>
             destruct x eqn:?; try discriminate H
         end.

Ltac use_fields :=
  repeat match goal with
         | E : field ?k ?v = Some _ |- context [getitem ?v ?k] =>
             rewrite (getitem_field _ _ _ E)
         | E : field ?k ?v = Some _ |- context [dict_get ?v ?k] =>
             rewrite (dict_get_field _ _ _ E)
         | E : ?x = _ |- context [?x] => rewrite E
         end.

(** What [receive_from_twilio] does with a message of each variant. *)
Lemma receive_from_twilio_event (v : json) (e : TelephonyEvent) (s : store) :
  telephony_event v = Some e ->
  receive_from_twilio (Yield (JSONText v)) s =
  match e with
  | media p =>
      if openai_ws_open s
      then ([openai_ws_send (append p)], s, Ok Running)
      else ([], s, Ok Running)
  | start sid =>
      ([print (Incoming_stream_has_started sid)],
       mkStore sid (openai_ws_open s), Ok Running)
  | other_event => ([], s, Ok Running)
  end.
Proof.
  intros H. destruct s as [sid0 o].
  unfold telephony_event, option_map in H. unfold_M.
  split_match_hyp H; inversion H; subst; clear H;
    repeat match goal with
           | E : py_eq_str _ _ = true |- _ => apply py_eq_str_true in E; subst
           end;
    use_fields; cbn; use_fields; destruct o; cbn; use_fields; reflexivity.
Qed.

(** What [send_to_twilio] does with a message of each variant. *)
Lemma send_to_twilio_event (v : json) (e : AIEvent) (s : store) :
  ai_event v = Some e ->
  send_to_twilio (Yield (JSONText v)) s =
  match e with
  | sessionUpdated => ([print (Session_updated_successfully v)], s, Ok Running)
  | audioDelta d =>
      if truthy d then
        match b64decode d with
        | Ok raw =>
            ([websocket_send_json (media_out (stream_sid s) (b64encode raw))],
             s, Ok Running)
        | Raise err => ([print (Error_processing_audio_data err)], s, Ok Running)
        end
      else ([], s, Ok Running)
  | loggable typeName => ([print (Received_event (JStr typeName) v)], s, Ok Running)
  | other => ([], s, Ok Running)
  end.
Proof.
  intros H. unfold ai_event in H.
  destruct (field "type" v) as [ty|] eqn:Ety; [|discriminate].
  pose proof (getitem_field _ _ _ Ety) as Hty.
  unfold_M. rewrite !Hty.
  destruct ty as [| | | |ty| |]; try (inversion H; subst; reflexivity).
  destruct (String.eqb ty "session.updated") eqn:E1.
  { apply String.eqb_eq in E1; subst. inversion H; subst. reflexivity. }
  destruct (String.eqb ty "response.audio.delta") eqn:E2.
  { apply String.eqb_eq in E2; subst. inversion H; subst; clear H. cbn.
    destruct (field "delta" v) as [d|] eqn:Ed.
    - rewrite (dict_get_field _ _ _ Ed), (getitem_field _ _ _ Ed).
      destruct (truthy d); [|reflexivity].
      destruct (b64decode d); reflexivity.
    - rewrite (dict_get_missing _ _ _ _ Ety Ed). reflexivity. }
  assert (Hin : py_in (JStr ty) LOG_EVENT_TYPES
                = existsb (String.eqb ty) LOG_EVENT_TYPES) by reflexivity.
  rewrite Hin. cbn [py_eq_str]. rewrite E1, E2.
  destruct (existsb (String.eqb ty) LOG_EVENT_TYPES);
    inversion H; subst; reflexivity.
Qed.

Lemma getitem_Ok_field (v : json) (key : string) (x : json) :
  getitem v key = Ok x -> field key v = Some x.
Proof.
  destruct v; simpl; try discriminate.
  destruct (dict_lookup key items); now inversion 1.
Qed.

Lemma ai_event_defined (v ty : json) :
  field "type" v = Some ty -> exists e, ai_event v = Some e.
Proof.
  intros H. unfold ai_event. rewrite H.
  destruct ty; eauto.
  repeat match goal with
         | |- context [if ?b then _ else _] => destruct b
         end; eauto.
Qed.

(** A message without a readable [type] ends [send_to_twilio]. *)
Lemma send_to_twilio_untyped (v : json) (err : exn) (s : store) :
  getitem v "type" = Raise err ->
  send_to_twilio (Yield (JSONText v)) s =
  ([print (Error_in_send_to_twilio err)], s, Ok Returned).
Proof.
  intros H. unfold_M. now rewrite H.
Qed.

(** [send_to_twilio] returns normally whatever it is resumed with, leaves
    the store alone, and calls neither [openai_ws.send], [openai_ws.close]
    nor [websocket.close]. *)
Lemma send_to_twilio_total (it : anext) (s : store) :
  exists t tk,
    send_to_twilio it s = (t, s, Ok tk) /\
    to_openai t = [] /\ closes t = O /\ keeps_telephony t = true.
Proof.
  destruct it as [[|v]| |err].
  - do 2 eexists. split; [reflexivity|]. auto.
  - destruct (getitem v "type") as [ty|err] eqn:Ety.
    + apply getitem_Ok_field in Ety.
      destruct (ai_event_defined _ _ Ety) as [e He].
      rewrite (send_to_twilio_event _ _ s He).
      destruct e as [|d|n|].
      * do 2 eexists. split; [reflexivity|]. auto.
      * destruct (truthy d); [destruct (b64decode d)|];
          do 2 eexists; (split; [reflexivity|]); auto.
      * do 2 eexists. split; [reflexivity|]. auto.
      * do 2 eexists. split; [reflexivity|]. auto.
    + rewrite (send_to_twilio_untyped _ _ s Ety).
      do 2 eexists. split; [reflexivity|]. auto.
  - do 2 eexists. split; [reflexivity|]. auto.
  - do 2 eexists. split; [reflexivity|]. auto.
Qed.

(** ** Traces and runs *)

Lemma to_openai_app (t1 t2 : list action) :
  to_openai (t1 ++ t2) = to_openai t1 ++ to_openai t2.
Proof.
  induction t1 as [|[] t1 IH]; simpl; now rewrite ?IH.
Qed.

Lemma to_twilio_app (t1 t2 : list action) :
  to_twilio (t1 ++ t2) = to_twilio t1 ++ to_twilio t2.
Proof.
  induction t1 as [|[] t1 IH]; simpl; now rewrite ?IH.
Qed.

Lemma closes_app (t1 t2 : list action) :
  closes (t1 ++ t2) = (closes t1 + closes t2)%nat.
Proof.
  induction t1 as [|[] t1 IH]; simpl; now rewrite ?IH.
Qed.

Lemma keeps_telephony_app (t1 t2 : list action) :
  keeps_telephony (t1 ++ t2) = keeps_telephony t1 && keeps_telephony t2.
Proof.
  induction t1 as [|[] t1 IH]; simpl; now rewrite ?IH.
Qed.

Lemma run_cons (ss : session) (ev : event) (evs : list event) :
  run ss (ev :: evs) =
  (fst (step ss ev) ++ fst (run (snd (step ss ev)) evs),
   snd (run (snd (step ss ev)) evs)).
Proof.
  simpl. destruct (step ss ev) as [t1 ss1]. simpl.
  now destruct (run ss1 evs).
Qed.

Lemma run_app (ss : session) (evs1 evs2 : list event) :
  run ss (evs1 ++ evs2) =
  (fst (run ss evs1) ++ fst (run (snd (run ss evs1)) evs2),
   snd (run (snd (run ss evs1)) evs2)).
Proof.
  revert ss. induction evs1 as [|ev evs1 IH]; intros ss.
  - simpl. now destruct (run ss evs2).
  - rewrite <- app_comm_cons, !run_cons, IH. simpl.
    now rewrite app_assoc.
Qed.

(** A step that does nothing can be dropped from a run. *)
Lemma run_skip (ss : session) (pre post : list event) (ev : event) :
  (forall ss', step ss' ev = ([], ss')) ->
  run ss (pre ++ ev :: post) = run ss (pre ++ post).
Proof.
  intros H. rewrite !run_app, run_cons, H. reflexivity.
Qed.

(** ** Steps of the session on the events of the data model *)

Lemma step_from_twilio (ss : session) (v : json) (e : TelephonyEvent) :
  receive_task ss = Running ->
  telephony_event v = Some e ->
  step ss (from_twilio v) =
  match e with
  | media p =>
      if openai_ws_open (cell ss)
      then ([openai_ws_send (append p)], ss)
      else ([], ss)
  | start sid =>
      ([print (Incoming_stream_has_started sid)],
       mkSession (mkStore sid (openai_ws_open (cell ss))) Running (send_task ss))
  | other_event => ([], ss)
  end.
Proof.
  intros Hrun He. destruct ss as [s rt st]. simpl in *. subst rt.
  rewrite (receive_from_twilio_event _ _ s He).
  destruct e; [reflexivity | destruct (openai_ws_open s); reflexivity | reflexivity].
Qed.

Lemma step_from_openai (ss : session) (v : json) (e : AIEvent) :
  send_task ss = Running ->
  ai_event v = Some e ->
  step ss (from_openai v) =
  (match e with
   | sessionUpdated => [print (Session_updated_successfully v)]
   | audioDelta d =>
       if truthy d then
         match b64decode d with
         | Ok raw =>
             [websocket_send_json
                (media_out (stream_sid (cell ss)) (b64encode raw))]
         | Raise err => [print (Error_processing_audio_data err)]
         end
       else []
   | loggable typeName => [print (Received_event (JStr typeName) v)]
   | other => []
   end, ss).
Proof.
  intros Hrun He. destruct ss as [s rt st]. simpl in *. subst st.
  rewrite (send_to_twilio_event _ _ s He).
  destruct e as [|d| |]; try reflexivity.
  destruct (truthy d); [destruct (b64decode d)|]; reflexivity.
Qed.

(** An AI event never touches the store, the inbound coroutine or the AI
    connection, and never closes the telephony connection. *)
Lemma step_openai (ss : session) (it : anext) :
  exists t tk,
    step ss (OpenAI it) = (t, mkSession (cell ss) (receive_task ss) tk) /\
    to_openai t = [] /\ closes t = O /\ keeps_telephony t = true.
Proof.
  destruct ss as [s rt st]. simpl.
  destruct st.
  - destruct (send_to_twilio_total it s) as (t & tk & -> & H).
    exists t, tk. auto.
  - exists [], Returned. auto.
  - exists [], (Failed e). auto.
Qed.

Lemma getitem_no_field (v : json) (key : string) :
  field key v = None ->
  getitem v key = Raise (KeyError key) \/ getitem v key = Raise TypeError.
Proof.
  destruct v; simpl; auto. intros ->. auto.
Qed.

(** A telephony message that is none of the three variants changes
    nothing; it either ends the coroutine with an exception or, for a
    media event without payload that meets a closed AI connection, is
    passed over. *)
Lemma receive_from_twilio_malformed (v : json) (s : store) :
  telephony_event v = None ->
  exists r,
    receive_from_twilio (Yield (JSONText v)) s = ([], s, r) /\
    (r = Ok Running \/ r = Raise TypeError \/ exists key, r = Raise (KeyError key)).
Proof.
  intros H. destruct s as [sid0 o].
  unfold telephony_event, option_map in H. unfold_M.
  split_match_hyp H; clear H;
    repeat match goal with
           | E : py_eq_str _ _ = true |- _ => apply py_eq_str_true in E; subst
           | E : field ?k ?x = None |- _ =>
               destruct (getitem_no_field _ _ E); clear E
           end;
    use_fields; cbn; use_fields; destruct o; cbn; use_fields;
    eexists; (split; [reflexivity|]); eauto.
Qed.

(** What [receive_from_twilio] can do in one resumption, whatever it is
    resumed with. *)
Lemma receive_from_twilio_inv (it : anext) (s : store) :
  exists t s' r,
    receive_from_twilio it s = (t, s', r) /\
    to_twilio t = [] /\ keeps_telephony t = true /\
    (closes t <= 1)%nat /\
    (openai_ws_open s = false ->
     to_openai t = [] /\ closes t = O /\ openai_ws_open s' = false) /\
    (openai_ws_open s' = true -> closes t = O) /\
    (stream_sid s' = stream_sid s \/
     exists v sid, it = Yield (JSONText v) /\
                   telephony_event v = Some (start sid) /\ stream_sid s' = sid).
Proof.
  destruct it as [[|v]| |err].
  - do 3 eexists. split; [reflexivity|]. simpl. intuition (try congruence; try lia; eauto).
  - destruct (telephony_event v) as [e|] eqn:He.
    + rewrite (receive_from_twilio_event _ _ s He).
      destruct e as [sid|p|].
      * do 3 eexists. split; [reflexivity|]. simpl. intuition (try congruence; try lia; eauto).
      * destruct (openai_ws_open s) eqn:Ho;
          do 3 eexists; (split; [reflexivity|]); simpl; intuition (try congruence; try lia; eauto).
      * do 3 eexists. split; [reflexivity|]. simpl. intuition (try congruence; try lia; eauto).
    + destruct (receive_from_twilio_malformed v s He) as (r & -> & _).
      do 3 eexists. split; [reflexivity|]. simpl. intuition (try congruence; try lia; eauto).
  - do 3 eexists. split; [reflexivity|]. simpl. intuition (try congruence; try lia; eauto).
  - destruct s as [sid0 o].
    destruct err; try (do 3 eexists; split; [reflexivity|]; simpl; intuition (try congruence; try lia; eauto)).
    destruct o; do 3 eexists; (split; [reflexivity|]); simpl; intuition (try congruence; try lia; eauto).
Qed.

(** ** Invariants of a session *)

Lemma step_inv (ss : session) (ev : event) :
  keeps_telephony (fst (step ss ev)) = true /\
  (closes (fst (step ss ev)) <= 1)%nat /\
  (openai_ws_open (cell ss) = false ->
   to_openai (fst (step ss ev)) = [] /\
   closes (fst (step ss ev)) = O /\
   openai_ws_open (cell (snd (step ss ev))) = false) /\
  (openai_ws_open (cell (snd (step ss ev))) = true ->
   closes (fst (step ss ev)) = O).
Proof.
  destruct ev as [it|it|].
  - destruct ss as [s rt st]. simpl. destruct rt; simpl; try (intuition lia).
    destruct (receive_from_twilio_inv it s) as (t & s' & r & -> & _ & H).
    simpl. intuition.
  - destruct (step_openai ss it) as (t & tk & -> & H). simpl. intuition lia.
  - simpl. intuition lia.
Qed.

(** Once the AI connection is not open it stays so, and nothing more is
    sent to it or asked of it. *)
Lemma run_closed (evs : list event) :
  forall ss,
    openai_ws_open (cell ss) = false ->
    to_openai (fst (run ss evs)) = [] /\
    closes (fst (run ss evs)) = O /\
    openai_ws_open (cell (snd (run ss evs))) = false.
Proof.
  induction evs as [|ev evs IH]; intros ss Hc.
  - simpl. auto.
  - rewrite run_cons. simpl.
    destruct (step_inv ss ev) as (_ & _ & H & _).
    destruct (H Hc) as (H1 & H2 & H3).
    destruct (IH _ H3) as (I1 & I2 & I3).
    rewrite to_openai_app, closes_app, H1, H2, I1, I2. auto.
Qed.

Lemma run_closes_once (evs : list event) :
  forall ss, (closes (fst (run ss evs)) <= 1)%nat.
Proof.
  induction evs as [|ev evs IH]; intros ss.
  - simpl. lia.
  - rewrite run_cons. simpl. rewrite closes_app.
    destruct (step_inv ss ev) as (_ & Hle & _ & Ho).
    destruct (openai_ws_open (cell (snd (step ss ev)))) eqn:E.
    + rewrite (Ho eq_refl). apply IH.
    + destruct (run_closed evs _ E) as (_ & -> & _). lia.
Qed.

Lemma run_keeps_telephony (evs : list event) :
  forall ss, keeps_telephony (fst (run ss evs)) = true.
Proof.
  induction evs as [|ev evs IH]; intros ss.
  - reflexivity.
  - rewrite run_cons. simpl. rewrite keeps_telephony_app, IH.
    destruct (step_inv ss ev) as (-> & _). reflexivity.
Qed.


Lemma media_payloads_cons (ev : event) (evs : list event) :
  media_payloads (ev :: evs) = media_payloads [ev] ++ media_payloads evs.
Proof.
  destruct ev as [[[|v]| |]|it|]; try reflexivity.
  simpl. destruct (telephony_event v) as [[]|]; reflexivity.
Qed.



(** Only a start event changes [stream_sid]. *)
Lemma step_sid (ss : session) (ev : event) :
  is_start ev = false ->
  stream_sid (cell (snd (step ss ev))) = stream_sid (cell ss).
Proof.
  intros Hns. destruct ev as [it|it|].
  - destruct ss as [s rt st]. simpl. destruct rt; try reflexivity.
    destruct (receive_from_twilio_inv it s)
      as (t & s' & r & -> & _ & _ & _ & _ & _ & [H|(v & sid & -> & Hv & _)]).
    + exact H.
    + simpl in Hns. rewrite Hv in Hns. discriminate.
  - destruct (step_openai ss it) as (t & tk & -> & _). reflexivity.
  - reflexivity.
Qed.

Lemma run_no_start (evs : list event) :
  forall ss,
    existsb is_start evs = false ->
    stream_sid (cell (snd (run ss evs))) = stream_sid (cell ss).
Proof.
  induction evs as [|ev evs IH]; intros ss H.
  - reflexivity.
  - simpl in H. apply orb_false_iff in H as [Hev Hevs].
    rewrite run_cons. cbn [snd]. rewrite (IH _ Hevs). now apply step_sid.
Qed.



(** A step that leaves the session as it is and sends nothing to the
    telephony connection can be dropped from a run without changing what
    the telephony connection receives. *)
Lemma run_skip_twilio (ss : session) (pre post : list event) (ev : event) :
  (forall ss', snd (step ss' ev) = ss' /\ to_twilio (fst (step ss' ev)) = []) ->
  to_twilio (fst (run ss (pre ++ ev :: post))) =
  to_twilio (fst (run ss (pre ++ post))).
Proof.
  intros H. rewrite !run_app, run_cons. cbn [fst snd].
  destruct (H (snd (run ss pre))) as [-> Ht].
  now rewrite !to_twilio_app, Ht.
Qed.

(** An audio delta whose payload is false in the Python sense, or fails
    to decode, leaves the session as it is and sends nothing. *)
Lemma step_delta_dropped (ss : session) (v d : json) :
  ai_event v = Some (audioDelta d) ->
  truthy d = false \/ (exists err, b64decode d = Raise err) ->
  snd (step ss (from_openai v)) = ss /\
  to_twilio (fst (step ss (from_openai v))) = [].
Proof.
  intros He Hd.
  destruct (send_task ss) eqn:Hst.
  - rewrite (step_from_openai _ _ _ Hst He).
    destruct Hd as [->|[err ->]]; [auto|].
    destruct (truthy d); auto.
  - destruct ss as [s rt st]. simpl in *. subst st. auto.
  - destruct ss as [s rt st]. simpl in *. subst st. auto.
Qed.

(** Among the payloads that decode, re-encoding gives back exactly the
    canonical ones. *)
Lemma reencode_fixed_iff_canonical (s : string) (raw : list byte) :
  b64decode (JStr s) = Ok raw ->
  (b64encode raw = s <-> canonical s).
Proof.
  intros Hd. split.
  - intros <-. now exists raw.
  - intros [raw' ->]. rewrite b64decode_b64encode in Hd.
    now inversion Hd.
Qed.


(* ===================================================================== *)
(** * The claims *)
(* ===================================================================== *)



(** C6. A media event that arrives while the AI connection is not open
    changes nothing and produces nothing: no exception, no action, no
    stored frame.  From a state in which the AI connection is not open, no
    sequence of events makes the session send anything to it. *)
Theorem C6_nothing_sent_once_closed (ss : session) (v p : json)
    (evs : list event) :
  openai_ws_open (cell ss) = false ->
  telephony_event v = Some (media p) ->
  step ss (from_twilio v) = ([], ss) /\
  to_openai (fst (run ss evs)) = [] /\
  openai_ws_open (cell (snd (run ss evs))) = false.
Proof.
  intros Hc Hv. split.
  - destruct (receive_task ss) eqn:Hr.
    + rewrite (step_from_twilio _ _ _ Hr Hv). now rewrite Hc.
    + destruct ss as [s rt st]. simpl in *. now subst rt.
    + destruct ss as [s rt st]. simpl in *. now subst rt.
  - destruct (run_closed evs ss Hc) as (H1 & _ & H3). auto.
Qed.

Lemma C6_witness :
  let ss := snd (handle_media_stream [from_twilio (start_message "A"); OpenAI_down]) in
  let v := media_message "cDE=" in
  openai_ws_open (cell ss) = false /\
  step ss (from_twilio v) = ([], ss) /\
  to_openai (fst (run ss [from_twilio v; from_twilio v])) = [].
Proof.
  split; [reflexivity|].
  destruct (C6_nothing_sent_once_closed
              (snd (handle_media_stream [from_twilio (start_message "A"); OpenAI_down]))
              (media_message "cDE=") (JStr "cDE=")
              [from_twilio (media_message "cDE="); from_twilio (media_message "cDE=")]
              eq_refl eq_refl) as (H1 & H2 & _).
  split; assumption.
Defined.

(** What the [except WebSocketDisconnect] handler would do, were the
    exception to reach it: it closes the AI connection if [openai_ws.open]
    says it is open and does nothing to it otherwise; [openai_ws.close] is
    then called once in the first case and never in the second, and no run
    calls it twice.  When the AI connection ends or fails, the outbound
    coroutine returns; the inbound coroutine, the store and the telephony
    connection are left as they are, and no run ever closes the telephony
    connection. *)
Lemma except_handler_closes_once (ss : session) (it : anext) (evs : list event) :
  receive_task ss = Running ->
  send_task ss = Running ->
  it = StopAsyncIteration \/ (exists err, it = Throw err) ->
  step ss (Twilio (Throw WebSocketDisconnect)) =
    (print Client_disconnected ::
       (if openai_ws_open (cell ss) then [openai_ws_close] else []),
     mkSession (mkStore (stream_sid (cell ss)) false) Returned Running) /\
  closes (fst (run ss (Twilio (Throw WebSocketDisconnect) :: evs))) =
    (if openai_ws_open (cell ss) then 1%nat else O) /\
  (closes (fst (run ss evs)) <= 1)%nat /\
  (exists t,
      step ss (OpenAI it) = (t, mkSession (cell ss) Running Returned) /\
      closes t = O /\ to_openai t = [] /\ to_twilio t = [] /\
      keeps_telephony t = true) /\
  keeps_telephony (fst (run ss evs)) = true.
Proof.
  intros Hr Hs Hit.
  assert (Hstep : step ss (Twilio (Throw WebSocketDisconnect)) =
    (print Client_disconnected ::
       (if openai_ws_open (cell ss) then [openai_ws_close] else []),
     mkSession (mkStore (stream_sid (cell ss)) false) Returned Running)).
  { destruct ss as [[sid o] rt st]. simpl in *. subst rt st.
    destruct o; reflexivity. }
  split; [exact Hstep|]. split; [|split; [|split]].
  - rewrite run_cons, Hstep. cbn [fst snd]. rewrite closes_app.
    destruct (run_closed evs
                (mkSession (mkStore (stream_sid (cell ss)) false) Returned Running)
                eq_refl) as (_ & -> & _).
    destruct (openai_ws_open (cell ss)); reflexivity.
  - apply run_closes_once.
  - destruct ss as [s rt st]. simpl in *. subst rt st.
    destruct Hit as [->|[err ->]]; eexists; (split; [reflexivity|]); auto.
  - apply run_keeps_telephony.
Qed.

(** Every outcome of [iter_text] is one of these events, and every such
    telephony event is an outcome of [iter_text]. *)
Lemma through_iter_text_spec (it : anext) :
  through_iter_text (Twilio it) = true <-> exists r, it = iter_text r.
Proof.
  split.
  - destruct it as [m| |e].
    + intros _. now exists (Text m).
    + intros _. now exists (Raises WebSocketDisconnect).
    + destruct e; try discriminate; intros _;
        match goal with |- exists r, Throw ?e = _ => now exists (Raises e) end.
  - intros [[m|e] ->]; [reflexivity|]. destruct e; reflexivity.
Qed.

(** On such an event nothing closes the AI connection. *)
Lemma step_through_iter_text (ss : session) (ev : event) :
  through_iter_text ev = true ->
  closes (fst (step ss ev)) = O.
Proof.
  intros Hev. destruct ev as [it|it|].
  - destruct ss as [s rt st]. simpl step. destruct rt; try reflexivity.
    destruct it as [[|v]| |err].
    + reflexivity.
    + destruct (telephony_event v) as [e|] eqn:He.
      * rewrite (receive_from_twilio_event _ _ s He).
        destruct e as [sid|p|]; try reflexivity.
        destruct (openai_ws_open s); reflexivity.
      * now destruct (receive_from_twilio_malformed v s He) as (r & -> & _).
    + reflexivity.
    + destruct err; try reflexivity. discriminate Hev.
  - destruct (step_openai ss it) as (t & tk & -> & _ & Hc & _). exact Hc.
  - reflexivity.
Qed.

(** C7. The disconnection of the telephony peer reaches
    [receive_from_twilio] through [websocket.iter_text()], that is as the
    end of the iteration: the coroutine returns without entering the
    [except WebSocketDisconnect] handler, makes no call, and leaves the
    store, and with it the AI connection, as they are.  Over any sequence
    of events that [iter_text] and the AI side can deliver,
    [openai_ws.close] is never called. *)
Theorem C7_disconnect_never_closes_openai (ss : session) (evs : list event) :
  receive_task ss = Running ->
  forallb through_iter_text evs = true ->
  step ss (Twilio (iter_text (Raises WebSocketDisconnect))) =
    ([], mkSession (cell ss) Returned (send_task ss)) /\
  closes (fst (run ss evs)) = O.
Proof.
  intros Hr Hevs. split.
  - destruct ss as [s rt st]. simpl in *. now subst rt.
  - clear Hr. revert ss. induction evs as [|ev evs IH]; intros ss; [reflexivity|].
    simpl in Hevs. apply andb_true_iff in Hevs as [Hev Hevs].
    rewrite run_cons. cbn [fst]. rewrite closes_app.
    now rewrite (step_through_iter_text ss ev Hev), (IH Hevs).
Qed.

Lemma C7_witness :
  let evs := [ from_twilio (start_message "A");
               from_twilio (media_message "cDE=");
               Twilio (iter_text (Raises WebSocketDisconnect));
               from_openai (audio_delta_message "aGk=") ] in
  forallb through_iter_text evs = true /\
  closes (fst (run initial evs)) = O /\
  receive_task (snd (run initial evs)) = Returned /\
  openai_ws_open (cell (snd (run initial evs))) = true.
Proof.
  split; [reflexivity|]. split; [|split; reflexivity].
  exact (proj2 (C7_disconnect_never_closes_openai initial
                  [ from_twilio (start_message "A");
                    from_twilio (media_message "cDE=");
                    Twilio (iter_text (Raises WebSocketDisconnect));
                    from_openai (audio_delta_message "aGk=") ]
                  eq_refl eq_refl)).
Defined.

(** C5. An audio delta whose payload is empty (the empty string, or more
    generally anything Python treats as false, a missing payload included)
    changes nothing and produces nothing; taking it out of a sequence of
    events leaves the messages sent to the telephony connection as they
    were. *)
Theorem C5_empty_delta_not_forwarded (ss : session) (v d : json)
    (pre post : list event) :
  ai_event v = Some (audioDelta d) ->
  truthy d = false ->
  step ss (from_openai v) = ([], ss) /\
  to_twilio (fst (run ss (pre ++ from_openai v :: post))) =
  to_twilio (fst (run ss (pre ++ post))).
Proof.
  intros Hv Hd.
  assert (Hstep : forall ss', step ss' (from_openai v) = ([], ss')).
  { intros ss'. destruct (send_task ss') eqn:Hst.
    - rewrite (step_from_openai _ _ _ Hst Hv). now rewrite Hd.
    - destruct ss' as [s rt st]. simpl in *. now subst st.
    - destruct ss' as [s rt st]. simpl in *. now subst st. }
  split; [apply Hstep|]. now rewrite (run_skip ss pre post _ Hstep).
Qed.

Lemma C5_witness :
  let v := audio_delta_message "" in
  step initial (from_openai v) = ([], initial) /\
  to_twilio (fst (handle_media_stream
                    [ from_twilio (start_message "A"); from_openai v;
                      from_openai (audio_delta_message "aGk=") ])) =
  [media_out (JStr "A") "aGk="].
Proof.
  destruct (C5_empty_delta_not_forwarded initial (audio_delta_message "") (JStr "")
              [from_twilio (start_message "A")]
              [from_openai (audio_delta_message "aGk=")] eq_refl eq_refl)
    as (H1 & H2).
  split; [exact H1|]. unfold handle_media_stream.
  etransitivity; [exact H2|reflexivity].
Defined.

(** C3. An audio delta whose payload fails to decode leaves the session
    as it is, the outbound coroutine still running, and sends nothing to
    the telephony connection; taking it out of a sequence of events does
    not change what the telephony connection receives, and a decodable,
    non-empty audio delta right after it is forwarded. *)
Theorem C3_undecodable_delta_dropped (ss : session) (v d v' d' : json)
    (err : exn) (raw' : list byte) (pre post : list event) :
  ai_event v = Some (audioDelta d) ->
  b64decode d = Raise err ->
  send_task ss = Running ->
  ai_event v' = Some (audioDelta d') ->
  truthy d' = true ->
  b64decode d' = Ok raw' ->
  snd (step ss (from_openai v)) = ss /\
  to_twilio (fst (step ss (from_openai v))) = [] /\
  to_twilio (fst (run ss (pre ++ from_openai v :: post))) =
    to_twilio (fst (run ss (pre ++ post))) /\
  to_twilio (fst (run ss [from_openai v; from_openai v'])) =
    [media_out (stream_sid (cell ss)) (b64encode raw')].
Proof.
  intros Hv Hd Hst Hv' Ht' Hd'.
  assert (Hdrop : forall ss', snd (step ss' (from_openai v)) = ss' /\
                              to_twilio (fst (step ss' (from_openai v))) = []).
  { intros ss'. apply (step_delta_dropped ss' v d Hv). right. eauto. }
  destruct (Hdrop ss) as [H1 H2].
  repeat split; [exact H1 | exact H2 | now apply run_skip_twilio |].
  rewrite run_cons. cbn [fst]. rewrite to_twilio_app, H1, H2.
  rewrite run_cons. cbn [fst].
  rewrite (step_from_openai _ _ _ Hst Hv'), Ht', Hd'. reflexivity.
Qed.

Lemma C3_witness :
  b64decode (JStr "aGk") = Raise binascii_Error /\
  to_twilio (fst (handle_media_stream
                    [ from_twilio (start_message "A");
                      from_openai (audio_delta_message "aGk");
                      from_openai (audio_delta_message "eW8=") ])) =
  [media_out (JStr "A") "eW8="].
Proof.
  split; [reflexivity|].
  destruct (C3_undecodable_delta_dropped
              (snd (handle_media_stream [from_twilio (start_message "A")]))
              (audio_delta_message "aGk") (JStr "aGk")
              (audio_delta_message "eW8=") (JStr "eW8=")
              binascii_Error ["y"%byte; "o"%byte] [] []
              eq_refl eq_refl eq_refl eq_refl eq_refl eq_refl)
    as (_ & _ & _ & H).
  exact H.
Defined.

(** C8. As long as no start event has been handled, [stream_sid] is still
    [None]; a non-empty, decodable audio delta that arrives then is
    forwarded all the same, with [streamSid] set to [None] ([null] on the
    wire), and the outbound coroutine goes on. *)
Theorem C8_delta_before_start (pre : list event) (v d : json)
    (raw : list byte) :
  existsb is_start pre = false ->
  send_task (snd (handle_media_stream pre)) = Running ->
  ai_event v = Some (audioDelta d) ->
  truthy d = true ->
  b64decode d = Ok raw ->
  step (snd (handle_media_stream pre)) (from_openai v) =
  ([websocket_send_json (media_out JNull (b64encode raw))],
   snd (handle_media_stream pre)).
Proof.
  intros Hpre Hst Hv Ht Hd. unfold handle_media_stream in *.
  rewrite (step_from_openai _ _ _ Hst Hv), Ht, Hd.
  now rewrite (run_no_start pre initial Hpre).
Qed.

Lemma C8_witness :
  let pre := [ from_twilio (media_message "cDE=");
               from_openai session_updated_message ] in
  existsb is_start pre = false /\
  step (snd (handle_media_stream pre)) (from_openai (audio_delta_message "aGk=")) =
  ([websocket_send_json (media_out JNull "aGk=")], snd (handle_media_stream pre)).
Proof.
  split; [reflexivity|].
  exact (C8_delta_before_start
           [ from_twilio (media_message "cDE=");
             from_openai session_updated_message ]
           (audio_delta_message "aGk=") (JStr "aGk=")
           ["h"%byte; "i"%byte]
           eq_refl eq_refl eq_refl eq_refl eq_refl).
Defined.




(** C9 as amended. On a payload in canonical form, that is the encoding
    of some bytes, decoding succeeds and re-encoding gives the payload
    back. *)
Theorem C9_reencode_canonical (s : string) :
  canonical s ->
  exists raw, b64decode (JStr s) = Ok raw /\ b64encode raw = s.
Proof.
  intros [raw ->]. exists raw. split; [apply b64decode_b64encode | reflexivity].
Qed.

Lemma C9_witness :
  canonical "aGk=" /\
  exists raw, b64decode (JStr "aGk=") = Ok raw /\ b64encode raw = "aGk=".
Proof.
  assert (H : canonical "aGk=") by (exists ["h"%byte; "i"%byte]; reflexivity).
  split; [exact H | exact (C9_reencode_canonical "aGk=" H)].
Defined.

(** C9 as stated fails: ["aGl="] decodes without error (the two unused
    bits of its last sextet are not checked) and re-encodes to ["aGk="]. *)
Lemma C9_counterexample :
  b64decode (JStr "aGl=") = Ok ["h"%byte; "i"%byte] /\
  b64encode ["h"%byte; "i"%byte] = "aGk=" /\
  b64encode ["h"%byte; "i"%byte] <> "aGl=".
Proof.
  repeat split; try reflexivity. discriminate.
Qed.

(** Further payloads the decoder accepts without their being canonical:
    characters outside the alphabet are skipped, and so are pad characters
    where no padding is due. *)
Example b64decode_skips_blank :
  b64decode (JStr "aG k=") = Ok ["h"%byte; "i"%byte].
Proof. reflexivity. Qed.

Example b64decode_only_pads : b64decode (JStr "====") = Ok [].
Proof. reflexivity. Qed.

Example b64decode_short : b64decode (JStr "aGk") = Raise binascii_Error.
Proof. reflexivity. Qed.

Example b64decode_not_ascii_type : b64decode (JInt 5) = Raise TypeError.
Proof. reflexivity. Qed.

(** C10. Messages that fail to parse end the coroutine that reads them.
    On the telephony side a text that is not JSON, a media event without
    [media] and one without [payload] each end [receive_from_twilio] with
    an exception nobody catches, and a media event that follows is not
    forwarded.  On the AI side a text that is not JSON and a message
    without [type] each end [send_to_twilio] (the exception is caught and
    printed outside the loop), and an audio delta that follows is not
    forwarded.  A payload that fails to decode, in contrast, is passed
    over and the next audio delta is forwarded. *)
Theorem C10_parse_failures_end_the_loops :
  step initial (Twilio (Yield NotJSON)) =
    ([], mkSession (cell initial) (Failed JSONDecodeError) Running) /\
  step initial (from_twilio (JObj [("event", JStr "media")])) =
    ([], mkSession (cell initial) (Failed (KeyError "media")) Running) /\
  step initial (from_twilio (JObj [("event", JStr "media"); ("media", JObj [])])) =
    ([], mkSession (cell initial) (Failed (KeyError "payload")) Running) /\
  to_openai (fst (handle_media_stream
                    [ Twilio (Yield NotJSON);
                      from_twilio (media_message "cDE=") ])) = [] /\
  step initial (OpenAI (Yield NotJSON)) =
    ([print (Error_in_send_to_twilio JSONDecodeError)],
     mkSession (cell initial) Running Returned) /\
  step initial (from_openai (JObj [("delta", JStr "aGk=")])) =
    ([print (Error_in_send_to_twilio (KeyError "type"))],
     mkSession (cell initial) Running Returned) /\
  to_twilio (fst (handle_media_stream
                    [ OpenAI (Yield NotJSON);
                      from_openai (audio_delta_message "aGk=") ])) = [] /\
  to_twilio (fst (handle_media_stream
                    [ from_openai (audio_delta_message "aGk");
                      from_openai (audio_delta_message "aGk=") ])) =
    [media_out JNull "aGk="].
Proof.
  repeat split; reflexivity.
Qed.

(** ** The end-to-end scenario *)








(* ===================================================================== *)
(** * Further properties of the relay *)
(* ===================================================================== *)

Lemma subseq_nil_l {A : Type} (l : list A) : subseq [] l.
Proof. induction l; constructor; assumption. Qed.

Lemma subseq_refl {A : Type} (l : list A) : subseq l l.
Proof. induction l; constructor; assumption. Qed.

Lemma subseq_app {A : Type} (l1 l2 m1 m2 : list A) :
  subseq l1 m1 -> subseq l2 m2 -> subseq (l1 ++ l2) (m1 ++ m2).
Proof.
  intros H1 H2. induction H1; simpl; try constructor; assumption.
Qed.

(** One resumption of [send_to_twilio] ends in [Running] or [Returned]. *)
Lemma send_to_twilio_returns (it : anext) (s : store) :
  exists t tk,
    send_to_twilio it s = (t, s, Ok tk) /\
    (tk = Running \/ tk = Returned).
Proof.
  destruct it as [[|v]| |err].
  - do 2 eexists. split; [reflexivity|]. auto.
  - destruct (getitem v "type") as [ty|err] eqn:Ety.
    + apply getitem_Ok_field in Ety.
      destruct (ai_event_defined _ _ Ety) as [e He].
      rewrite (send_to_twilio_event _ _ s He).
      destruct e as [|d|n|].
      * do 2 eexists. split; [reflexivity|]. auto.
      * destruct (truthy d); [destruct (b64decode d)|];
          do 2 eexists; (split; [reflexivity|]); auto.
      * do 2 eexists. split; [reflexivity|]. auto.
      * do 2 eexists. split; [reflexivity|]. auto.
    + rewrite (send_to_twilio_untyped _ _ s Ety).
      do 2 eexists. split; [reflexivity|]. auto.
  - do 2 eexists. split; [reflexivity|]. auto.
  - do 2 eexists. split; [reflexivity|]. auto.
Qed.

(** What a step sends to the AI connection: nothing, or the append
    command of the media event it handles. *)
Lemma step_to_openai (ss : session) (ev : event) :
  subseq (to_openai (fst (step ss ev))) (map append (media_payloads [ev])).
Proof.
  destruct ev as [it|it|].
  - destruct ss as [s rt st]. simpl step.
    destruct rt; try apply subseq_nil_l.
    destruct it as [[|v]| |err].
    + apply subseq_nil_l.
    + cbn [media_payloads].
      destruct (telephony_event v) as [e|] eqn:He.
      * rewrite (receive_from_twilio_event _ _ s He).
        destruct e as [sid|p|]; try apply subseq_nil_l.
        destruct (openai_ws_open s); [apply subseq_refl | apply subseq_nil_l].
      * destruct (receive_from_twilio_malformed v s He) as (r & -> & _).
        apply subseq_nil_l.
    + apply subseq_nil_l.
    + destruct (receive_from_twilio_inv (Throw err) s)
        as (t & s' & r & E & _).
      destruct s as [sid o].
      destruct err; try apply subseq_nil_l.
      destruct o; apply subseq_nil_l.
  - destruct (step_openai ss it) as (t & tk & Hst & Ht & _).
    rewrite Hst. cbn [fst]. rewrite Ht. apply subseq_nil_l.
  - apply subseq_nil_l.
Qed.

Lemma run_to_openai_subseq (ss : session) (evs : list event) :
  subseq (to_openai (fst (run ss evs))) (map append (media_payloads evs)).
Proof.
  revert ss. induction evs as [|ev evs IH]; intros ss.
  - simpl. constructor.
  - rewrite run_cons. cbn [fst].
    rewrite to_openai_app, (media_payloads_cons ev evs), map_app.
    apply subseq_app; [apply step_to_openai | apply IH].
Qed.

(** X1. Whatever arrives, in whatever state: the messages handed to
    [openai_ws.send] by the coroutines are append commands of payloads of
    media events that did arrive, in the order of arrival, none of them
    twice. *)
Theorem X1_only_received_audio_reaches_openai (ss : session) (evs : list event) :
  subseq (to_openai (fst (run ss evs))) (map append (media_payloads evs)).
Proof.
  apply run_to_openai_subseq.
Qed.

(** What a step sends to the telephony connection. *)
Lemma step_to_twilio (ss : session) (ev : event) :
  to_twilio (fst (step ss ev)) =
  match send_task ss with
  | Running => forwarded (stream_sid (cell ss)) ev
  | _ => []
  end.
Proof.
  destruct ev as [it|it|].
  - assert (H : to_twilio (fst (step ss (Twilio it))) = []).
    { destruct ss as [s rt st]. simpl. destruct rt; try reflexivity.
      destruct (receive_from_twilio_inv it s) as (t & s' & r & -> & Ht & _).
      exact Ht. }
    rewrite H. destruct (send_task ss); reflexivity.
  - destruct ss as [s rt st]. simpl step. cbn [send_task cell].
    destruct st; try reflexivity.
    destruct it as [[|v]| |err]; try reflexivity.
    cbn [forwarded].
    destruct (ai_event v) as [e|] eqn:He.
    + rewrite (send_to_twilio_event _ _ s He).
      destruct e as [|d|n|]; try reflexivity.
      destruct (truthy d); [destruct (b64decode d)|]; reflexivity.
    + assert (Hty : exists err, getitem v "type" = Raise err).
      { destruct (getitem v "type") as [ty|err] eqn:Ety; [|eauto].
        apply getitem_Ok_field in Ety.
        destruct (ai_event_defined _ _ Ety) as [e He']. congruence. }
      destruct Hty as [err Hty].
      rewrite (send_to_twilio_untyped _ _ s Hty). reflexivity.
  - destruct (send_task ss); reflexivity.
Qed.

Lemma forwarded_canonical (sid : json) (ev : event) :
  Forall (fun m => exists payload, m = media_out sid payload /\ canonical payload)
         (forwarded sid ev).
Proof.
  destruct ev as [it|[[|v]| |err]|]; simpl; try constructor.
  destruct (ai_event v) as [[|d|n|]|]; try constructor.
  destruct (truthy d); [|constructor].
  destruct (b64decode d) as [raw|]; constructor; [|constructor].
  exists (b64encode raw). split; [reflexivity | now exists raw].
Qed.

(** X2. Whatever arrives, in whatever state: every message handed to
    [websocket.send_json] is a media event whose payload is in canonical
    base64 form, however the AI side wrote the payload it was made from. *)
Theorem X2_telephony_gets_canonical_media_only (ss : session) (evs : list event) :
  Forall (fun m => exists sid payload,
                     m = media_out sid payload /\ canonical payload)
         (to_twilio (fst (run ss evs))).
Proof.
  revert ss. induction evs as [|ev evs IH]; intros ss.
  - simpl. constructor.
  - rewrite run_cons. cbn [fst]. rewrite to_twilio_app.
    apply Forall_app. split; [|apply IH].
    rewrite step_to_twilio. destruct (send_task ss); try constructor.
    eapply Forall_impl; [|apply forwarded_canonical].
    intros m (payload & -> & Hc). eauto.
Qed.





Lemma step_send_task (ss : session) (ev : event) :
  (forall e, send_task ss <> Failed e) ->
  forall e, send_task (snd (step ss ev)) <> Failed e.
Proof.
  intros H e. destruct ev as [it|it|].
  - destruct ss as [s rt st]. simpl in *. destruct rt; try apply H.
    destruct (receive_from_twilio it s) as [[t s'] r]. apply H.
  - destruct ss as [s rt st]. simpl in *. destruct st; try apply H.
    destruct (send_to_twilio_returns it s) as (t & tk & -> & [->| ->]);
      discriminate.
  - apply H.
Qed.

(** X4. Whatever the two sockets deliver, [send_to_twilio] never ends
    with an exception: its task is running or has returned. *)
Theorem X4_send_to_twilio_never_fails (evs : list event) (e : exn) :
  send_task (snd (handle_media_stream evs)) <> Failed e.
Proof.
  unfold handle_media_stream.
  assert (H : forall ss, (forall e, send_task ss <> Failed e) ->
                         forall e, send_task (snd (run ss evs)) <> Failed e).
  { induction evs as [|ev evs IH]; intros ss Hss e'.
    - apply Hss.
    - rewrite run_cons. cbn [snd]. apply IH. now apply step_send_task. }
  apply H. intros e'. discriminate.
Qed.

(* ===================================================================== *)
(** * Further properties of the base64 pair *)
(* ===================================================================== *)

(** X7. Decoding the encoding of any bytes gives the bytes back, so two
    byte strings with the same encoding are equal: the audio carried by a
    forwarded payload is the audio that was decoded. *)
Theorem X7_decode_after_encode (raw : list byte) :
  b64decode (JStr (b64encode raw)) = Ok raw /\
  (forall raw', b64encode raw = b64encode raw' -> raw = raw').
Proof.
  split; [apply b64decode_b64encode|].
  intros raw' H.
  pose proof (b64decode_b64encode raw) as H1.
  rewrite H, b64decode_b64encode in H1. now inversion H1.
Qed.

Lemma a2b_loop_strip (s : string) :
  forall (quad_pos leftchar pads : N) (bin_data : list byte),
    Base64.a2b_loop (strip s) quad_pos leftchar pads bin_data =
    Base64.a2b_loop s quad_pos leftchar pads bin_data.
Proof.
  induction s as [|c s IH]; intros q l p acc; [reflexivity|].
  cbn [strip]. unfold significant.
  destruct (Ascii.eqb c Base64.BASE64_PAD) eqn:Epad.
  - cbn [orb Base64.a2b_loop]. rewrite Epad.
    destruct (2 <=? q); [destruct (4 <=? q + (p + 1))|]; auto.
  - cbn [orb].
    destruct (N.ltb_spec (Base64.table_a2b_base64 c) 64) as [Hlt|Hge].
    + cbn [Base64.a2b_loop]. rewrite Epad.
      destruct (64 <=? Base64.table_a2b_base64 c); [apply IH|].
      destruct q as [|[[]|[]|]]; apply IH.
    + cbn [Base64.a2b_loop]. rewrite Epad.
      destruct (N.leb_spec 64 (Base64.table_a2b_base64 c)) as [_|Hlt]; [|lia].
      apply IH.
Qed.

Lemma is_ascii_strip (s : string) :
  Base64.is_ascii s = true -> Base64.is_ascii (strip s) = true.
Proof.
  induction s as [|c s IH]; [reflexivity|].
  cbn [Base64.is_ascii strip]. intros H.
  apply andb_true_iff in H as [Hc Hs].
  destruct (significant c); [cbn [Base64.is_ascii]; rewrite Hc|]; auto.
Qed.

(** X8. [b64decode] looks only at the characters of the alphabet and at
    the pad character: blanks, line ends and any other ASCII character in
    a payload make no difference to what is decoded, or to whether
    decoding fails. *)
Theorem X8_decoder_skips_other_characters (s : string) :
  Base64.is_ascii s = true ->
  b64decode (JStr (strip s)) = b64decode (JStr s).
Proof.
  intros H. unfold b64decode, Base64.a2b_base64.
  now rewrite H, (is_ascii_strip s H), a2b_loop_strip.
Qed.

Lemma X8_witness :
  Base64.is_ascii "a G-k =" = true /\
  b64decode (JStr "aGk=") = b64decode (JStr "a G-k =").
Proof.
  split; [reflexivity|].
  exact (X8_decoder_skips_other_characters "a G-k =" eq_refl).
Defined.

(** X9. The payload sent on has four characters for every three bytes of
    audio, the last group being padded: its length is a multiple of
    four. *)
Theorem X9_encoded_length (raw : list byte) :
  String.length (b64encode raw) = (4 * ((List.length raw + 2) / 3))%nat.
Proof.
  unfold b64encode.
  induction raw as [|x|x y|x y z rest IH] using list_ind3; try reflexivity.
  cbn [Base64.b2a_base64 String.length List.length]. rewrite IH.
  replace (S (S (S (List.length rest))) + 2)%nat
    with (List.length rest + 2 + 1 * 3)%nat by lia.
  rewrite Nat.div_add by lia. lia.
Qed.

(* ===================================================================== *)
(** * Properties of start-up and of the opening of a call *)
(* ===================================================================== *)

Lemma string_app_assoc (a b c : string) :
  ((a ++ b) ++ c = a ++ (b ++ c))%string.
Proof. induction a as [|x a IH]; simpl; now rewrite ?IH. Qed.

Lemma string_app_nil_r (a : string) : (a ++ "" = a)%string.
Proof. induction a as [|x a IH]; simpl; now rewrite ?IH. Qed.

(** [endswith] is what its name says. *)
Lemma endswith_spec (s suffix : string) :
  endswith s suffix = true <-> exists pre, s = (pre ++ suffix)%string.
Proof.
  split.
  - induction s as [|c s IH]; cbn [endswith]; intros H.
    + rewrite orb_false_r in H. apply String.eqb_eq in H. now exists "".
    + apply orb_true_iff in H as [H|H].
      * apply String.eqb_eq in H. now exists "".
      * destruct (IH H) as [pre ->]. now exists (String c pre).
  - intros [pre ->]. induction pre as [|c pre IH].
    + cbn [String.append].
      destruct suffix; cbn [endswith]; now rewrite String.eqb_refl.
    + cbn [String.append endswith]. rewrite IH. apply orb_true_r.
Qed.

Lemma read_pages_from (pages : list (option string)) :
  forall c : string,
    read_pages pages c =
    ((c ++ fst (read_pages pages ""))%string, snd (read_pages pages "")).
Proof.
  induction pages as [|[t|] pages IH]; intros c; simpl.
  - now rewrite string_app_nil_r.
  - rewrite (IH (c ++ t)%string), (IH t). simpl.
    now rewrite string_app_assoc.
  - now rewrite string_app_nil_r.
Qed.

Lemma read_files_from (fs : files) (pdf_files : list string) :
  forall c : string,
    read_files fs pdf_files c =
    ((c ++ fst (read_files fs pdf_files ""))%string,
     snd (read_files fs pdf_files "")).
Proof.
  induction pdf_files as [|f rest IH]; intros c; simpl.
  - now rewrite string_app_nil_r.
  - destruct (extract_text fs f) as [pages|]; simpl.
    + rewrite (read_pages_from pages c).
      destruct (read_pages pages "") as [c1 [e|]]; simpl.
      * reflexivity.
      * rewrite (IH (c ++ c1)%string), (IH c1). simpl.
        now rewrite string_app_assoc.
    + now rewrite string_app_nil_r.
Qed.

(** X10. [parse_pdf] only ever appends to the global [pdf_content]: what
    was there stays in front, and what is added, like the exception that
    may end the call, does not depend on it.  Calling it again therefore
    appends the same texts a second time. *)
Theorem X10_parse_pdf_appends (fs : files) (c : string) :
  parse_pdf fs c =
  ((c ++ fst (parse_pdf fs ""))%string, snd (parse_pdf fs "")).
Proof.
  unfold parse_pdf. destruct (listdir fs) as [names|]; simpl.
  - apply read_files_from.
  - now rewrite string_app_nil_r.
Qed.

Lemma read_files_agree (fs fs' : files) (pdf_files : list string) :
  Forall (fun f => extract_text fs f = extract_text fs' f) pdf_files ->
  forall c, read_files fs pdf_files c = read_files fs' pdf_files c.
Proof.
  induction 1 as [|f rest Hf _ IH]; intros c; simpl; [reflexivity|].
  rewrite <- Hf. destruct (extract_text fs f) as [pages|]; [|reflexivity].
  destruct (read_pages pages c) as [c1 [e|]]; [reflexivity | apply IH].
Qed.

(** X11. [parse_pdf] opens only the listed files whose names end in
    [.pdf] (in lower case, as written): two directories that list the
    same names and agree on those files give the same result, whatever
    the other files are and whether or not they can be read at all. *)
Theorem X11_parse_pdf_reads_pdf_files_only (fs fs' : files)
    (names : list string) (c : string) :
  listdir fs = Some names ->
  listdir fs' = Some names ->
  (forall f, In f names -> endswith f ".pdf" = true ->
             extract_text fs f = extract_text fs' f) ->
  parse_pdf fs c = parse_pdf fs' c.
Proof.
  intros Hl Hl' Hx. unfold parse_pdf. rewrite Hl, Hl'.
  apply read_files_agree. apply Forall_forall.
  intros f Hf. apply filter_In in Hf as [Hin Hf]. now apply Hx.
Qed.

Lemma X11_witness :
  let names := ["a.pdf"; "notes.txt"; "b.PDF"] in
  let fs := mkFiles (Some names)
              (fun f => if String.eqb f "a.pdf" then Some [Some "one"; Some "two"]
                        else None) in
  let fs' := mkFiles (Some names)
               (fun f => if String.eqb f "a.pdf" then Some [Some "one"; Some "two"]
                         else Some [None]) in
  parse_pdf fs "" = ("onetwo", None) /\ parse_pdf fs "" = parse_pdf fs' "".
Proof.
  split; [reflexivity|].
  apply (X11_parse_pdf_reads_pdf_files_only _ _ ["a.pdf"; "notes.txt"; "b.PDF"]);
    [reflexivity | reflexivity |].
  intros f [<-|[<-|[<-|[]]]] Hf;
    first [reflexivity | discriminate Hf].
Defined.

Lemma join_app (l1 l2 : list string) :
  join (l1 ++ l2) = (join l1 ++ join l2)%string.
Proof.
  induction l1 as [|x l1 IH]; simpl; [reflexivity|].
  unfold join in *. simpl. now rewrite IH, string_app_assoc.
Qed.

Lemma read_pages_spec (pages : list (option string)) :
  forall c : string,
    match read_pages pages c with
    | (c', None) =>
        forallb (fun p => match p with Some _ => true | None => false end) pages = true /\
        c' = (c ++ join (map (fun p => match p with Some t => t | None => "" end) pages))%string
    | (_, Some _) =>
        forallb (fun p => match p with Some _ => true | None => false end) pages = false
    end.
Proof.
  induction pages as [|[t|] pages IH]; intros c; simpl.
  - now rewrite string_app_nil_r.
  - specialize (IH (c ++ t)%string).
    destruct (read_pages pages (c ++ t)%string) as [c' [e|]]; [exact IH|].
    destruct IH as [H ->]. split; [exact H|].
    unfold join. simpl. now rewrite string_app_assoc.
  - reflexivity.
Qed.

Lemma read_files_spec (fs : files) (names : list string) :
  forall c : string,
    match read_files fs (filter (fun f => endswith f ".pdf") names) c with
    | (c', None) =>
        readable fs names = true /\
        c' = (c ++ join (page_texts fs names))%string
    | (_, Some _) => readable fs names = false
    end.
Proof.
  induction names as [|f names IH]; intros c.
  - simpl. now rewrite string_app_nil_r.
  - cbn [filter readable forallb page_texts flat_map].
    fold (readable fs names). fold (page_texts fs names).
    destruct (endswith f ".pdf").
    + cbn [read_files].
      destruct (extract_text fs f) as [pages|]; [|reflexivity].
      pose proof (read_pages_spec pages c) as Hp.
      destruct (read_pages pages c) as [c1 [e|]].
      * now rewrite Hp.
      * destruct Hp as [Hp ->]. rewrite Hp. cbn [andb].
        specialize (IH (c ++ join (map (fun p => match p with
                                                 | Some t => t
                                                 | None => ""
                                                 end) pages))%string).
        destruct (read_files fs (filter (fun f => endswith f ".pdf") names) _)
          as [c2 [e|]]; [exact IH|].
        destruct IH as [H ->]. split; [exact H|].
        now rewrite join_app, string_app_assoc.
    + cbn [andb app]. apply IH.
Qed.

Lemma parse_pdf_listed (fs : files) (names : list string) (c : string) :
  listdir fs = Some names ->
  (snd (parse_pdf fs c) = None <-> readable fs names = true) /\
  (readable fs names = true ->
   fst (parse_pdf fs c) = (c ++ join (page_texts fs names))%string).
Proof.
  intros Hl. unfold parse_pdf. rewrite Hl.
  pose proof (read_files_spec fs names c) as H.
  destruct (read_files fs (filter (fun f => endswith f ".pdf") names) c)
    as [c' [e|]]; simpl.
  - rewrite H. split; [split; discriminate | discriminate].
  - destruct H as [H ->]. rewrite H. split; [split; reflexivity | reflexivity].
Qed.

(** X12. [parse_pdf] on a directory that can be listed returns without
    an exception exactly when every listed [.pdf] file can be opened and
    each of its pages has text; [pdf_content] is then what it was,
    followed by the text of every page of those files, in the order of
    the listing and of the pages. *)
Theorem X12_parse_pdf_result (fs : files) (names : list string) (c : string) :
  listdir fs = Some names ->
  (snd (parse_pdf fs c) = None <-> readable fs names = true) /\
  (readable fs names = true ->
   fst (parse_pdf fs c) = (c ++ join (page_texts fs names))%string).
Proof.
  intros Hl. exact (parse_pdf_listed fs names c Hl).
Qed.

Lemma X12_witness :
  let fs := mkFiles (Some ["a.pdf"; "notes.txt"; "b.pdf"])
              (fun f => if String.eqb f "a.pdf" then Some [Some "one"; Some "two"]
                        else if String.eqb f "b.pdf" then Some [Some "three"]
                        else None) in
  fst (parse_pdf fs "kept:") = "kept:onetwothree".
Proof.
  exact (proj2 (X12_parse_pdf_result
                  (mkFiles (Some ["a.pdf"; "notes.txt"; "b.pdf"])
                     (fun f => if String.eqb f "a.pdf" then Some [Some "one"; Some "two"]
                               else if String.eqb f "b.pdf" then Some [Some "three"]
                               else None))
                  ["a.pdf"; "notes.txt"; "b.pdf"] "kept:" eq_refl) eq_refl).
Defined.

Lemma load_module_succeeds (py_int : string -> option Z) (env : environ)
    (g : globals) :
  load_module py_int env = inl g <->
  (match env_PORT env with
   | None => PORT g = 5050%Z
   | Some s => py_int s = Some (PORT g)
   end /\
   (exists names,
       listdir (env_files env) = Some names /\
       readable (env_files env) names = true /\
       pdf_content g = join (page_texts (env_files env) names)) /\
   env_OPENAI_API_KEY env = Some (OPENAI_API_KEY g) /\
   OPENAI_API_KEY g <> "").
Proof.
  unfold load_module. split.
  - intros H.
    destruct (match env_PORT env with None => Some 5050%Z | Some s => py_int s end)
      as [port|] eqn:Eport; [|discriminate].
    destruct (listdir (env_files env)) as [names|] eqn:El.
    2:{ unfold parse_pdf in H. rewrite El in H. discriminate. }
    destruct (parse_pdf_listed (env_files env) names "" El) as [Hiff Hc].
    destruct (parse_pdf (env_files env) "") as [content [e|]]; [discriminate|].
    destruct (env_OPENAI_API_KEY env) as [k|]; [|discriminate].
    destruct (String.eqb_spec k ""); [discriminate|].
    inversion H; subst; clear H. simpl in *.
    pose proof (proj1 Hiff eq_refl) as Hr.
    repeat split.
    + destruct (env_PORT env); congruence.
    + exists names. auto.
    + assumption.
  - intros (Hport & (names & El & Hr & Hc) & Hk & Hne).
    destruct (parse_pdf_listed (env_files env) names "" El) as [Hiff Hc'].
    assert (Eport : match env_PORT env with None => Some 5050%Z | Some s => py_int s end
                    = Some (PORT g)).
    { destruct (env_PORT env); congruence. }
    rewrite Eport.
    pose proof (proj2 Hiff Hr) as He. specialize (Hc' Hr).
    destruct (parse_pdf (env_files env) "") as [content e]. simpl in *. subst e.
    rewrite Hk. destruct (String.eqb_spec (OPENAI_API_KEY g) ""); [contradiction|].
    destruct g as [k p c]. simpl in *. congruence.
Qed.

Lemma load_module_fails (py_int : string -> option Z) (env : environ)
    (e : startup_exn) :
  load_module py_int env = inr e <->
  match
    match env_PORT env with
    | None => Some 5050%Z
    | Some s => py_int s
    end
  with
  | None => e = Port_ValueError
  | Some _ =>
      match snd (parse_pdf (env_files env) "") with
      | Some e' => e = e'
      | None =>
          e = Missing_key_ValueError /\
          (env_OPENAI_API_KEY env = None \/ env_OPENAI_API_KEY env = Some "")
      end
  end.
Proof.
  unfold load_module.
  destruct (match env_PORT env with None => Some 5050%Z | Some s => py_int s end)
    as [port|].
  - destruct (parse_pdf (env_files env) "") as [content [e'|]]; cbn [snd].
    + split; [now inversion 1 | now intros ->].
    + destruct (env_OPENAI_API_KEY env) as [k|].
      * destruct (String.eqb_spec k "") as [->|Hne].
        -- split; [inversion 1; auto | now intros [-> _]].
        -- split; [discriminate|]. intros [_ [H|H]]; congruence.
      * split; [inversion 1; auto | now intros [-> _]].
  - split; [now inversion 1 | now intros ->].
Qed.

(** X13. The module loads exactly when [PORT] is unset or a number, the
    [PDF] directory can be listed and all its [.pdf] files read, and
    [OPENAI_API_KEY] is set to a non-empty string; the globals are then
    that key, that port (5050 if unset) and the text of the PDFs.  When
    it does not load, the exception is that of the first step to fail, in
    the order of the source: the conversion of [PORT], then [parse_pdf],
    and only then the test of the key.  A missing or empty key therefore
    always stops the load, but it is reported only if [PORT] and the PDFs
    went through. *)
Theorem X13_load_module (py_int : string -> option Z) (env : environ)
    (g : globals) (e : startup_exn) :
  (load_module py_int env = inl g <->
   (match env_PORT env with
    | None => PORT g = 5050%Z
    | Some s => py_int s = Some (PORT g)
    end /\
    (exists names,
        listdir (env_files env) = Some names /\
        readable (env_files env) names = true /\
        pdf_content g = join (page_texts (env_files env) names)) /\
    env_OPENAI_API_KEY env = Some (OPENAI_API_KEY g) /\
    OPENAI_API_KEY g <> "")) /\
  (load_module py_int env = inr e <->
   match
     match env_PORT env with
     | None => Some 5050%Z
     | Some s => py_int s
     end
   with
   | None => e = Port_ValueError
   | Some _ =>
       match snd (parse_pdf (env_files env) "") with
       | Some e' => e = e'
       | None =>
           e = Missing_key_ValueError /\
           (env_OPENAI_API_KEY env = None \/ env_OPENAI_API_KEY env = Some "")
       end
   end).
Proof.
  split; [apply load_module_succeeds | apply load_module_fails].
Qed.

Lemma X13_witness :
  let fs := mkFiles (Some ["faq.pdf"; "README"])
              (fun f => if String.eqb f "faq.pdf" then Some [Some "Q"; Some "A"]
                        else None) in
  load_module (fun _ => None) (mkEnviron (Some "sk-test") None fs) =
    inl (mkGlobals "sk-test" 5050 "QA") /\
  load_module (fun _ => None) (mkEnviron None (Some "http") fs) =
    inr Port_ValueError /\
  load_module (fun _ => None) (mkEnviron (Some "") None fs) =
    inr Missing_key_ValueError.
Proof.
  split; [|split].
  - apply (proj2 (proj1 (X13_load_module (fun _ => None)
                    (mkEnviron (Some "sk-test") None
                       (mkFiles (Some ["faq.pdf"; "README"])
                          (fun f => if String.eqb f "faq.pdf"
                                    then Some [Some "Q"; Some "A"] else None)))
                    (mkGlobals "sk-test" 5050 "QA") OSError))).
    simpl. repeat split.
    + exists ["faq.pdf"; "README"]. repeat split; reflexivity.
    + discriminate.
  - apply (proj2 (proj2 (X13_load_module (fun _ => None)
                    (mkEnviron None (Some "http")
                       (mkFiles (Some ["faq.pdf"; "README"])
                          (fun f => if String.eqb f "faq.pdf"
                                    then Some [Some "Q"; Some "A"] else None)))
                    (mkGlobals "" 0 "") Port_ValueError))).
    reflexivity.
  - apply (proj2 (proj2 (X13_load_module (fun _ => None)
                    (mkEnviron (Some "") None
                       (mkFiles (Some ["faq.pdf"; "README"])
                          (fun f => if String.eqb f "faq.pdf"
                                    then Some [Some "Q"; Some "A"] else None)))
                    (mkGlobals "" 0 "") Missing_key_ValueError))).
    simpl. auto.
Defined.

Lemma relayed_app (t1 t2 : list call_action) :
  relayed (t1 ++ t2) = relayed t1 ++ relayed t2.
Proof.
  induction t1 as [|[] t1 IH]; simpl; now rewrite ?IH.
Qed.

Lemma relayed_relay (t : list action) : relayed (map relay t) = t.
Proof.
  induction t as [|a t IH]; simpl; now rewrite ?IH.
Qed.

Lemma subseq_In {A : Type} (l m : list A) (x : A) :
  subseq l m -> In x l -> In x m.
Proof.
  induction 1; simpl; intuition.
Qed.

(** X14. When [handle_media_stream] gets as far as starting the two
    coroutines, the AI connection was open, the first message it was sent
    is the session configuration built from the instructions, and that
    message is sent only once: all that follows are append commands of
    media events that arrived.  The coroutines start with
    [stream_sid = None]. *)
Theorem X14_session_update_comes_first (instructions : string)
    (c : connection) (evs : list event) (t : list call_action) (ss : session) :
  media_stream instructions c evs = (t, Ok ss) ->
  c = Connected true /\
  ss = snd (handle_media_stream evs) /\
  exists rest,
    to_openai (relayed t) = session_update instructions :: rest /\
    subseq rest (map append (media_payloads evs)) /\
    ~ In (session_update instructions) rest /\
    to_twilio (relayed t) = to_twilio (fst (handle_media_stream evs)).
Proof.
  unfold media_stream, send_session_update, ws_send.
  destruct c as [e|[|]]; simpl; try discriminate.
  destruct (handle_media_stream evs) as [t' ss'] eqn:Eh.
  intros H. inversion H; subst; clear H.
  split; [reflexivity|]. split; [reflexivity|].
  exists (to_openai t'). simpl. rewrite relayed_relay.
  assert (Hsub : subseq (to_openai t') (map append (media_payloads evs))).
  { pose proof (run_to_openai_subseq initial evs) as Hs.
    unfold handle_media_stream in Eh. now rewrite Eh in Hs. }
  repeat split; try assumption; try reflexivity.
  intros Hin. apply (subseq_In _ _ _ Hsub) in Hin.
  apply in_map_iff in Hin as (p & Hp & _). discriminate Hp.
Qed.

Lemma X14_witness :
  exists rest,
    to_openai (relayed (fst (media_stream "You are." (Connected true)
                               [ from_twilio (start_message "A");
                                 from_twilio (media_message "cDE=") ]))) =
    session_update "You are." :: rest /\
    rest = [append (JStr "cDE=")].
Proof.
  destruct (X14_session_update_comes_first "You are." (Connected true)
              [ from_twilio (start_message "A"); from_twilio (media_message "cDE=") ]
              _ _ eq_refl) as (_ & _ & rest & H & _).
  exists rest. split; [exact H|]. now inversion H.
Defined.

(** X15. When the handler ends before the coroutines start, because the
    connection to the AI endpoint is refused or is already gone when the
    configuration is to be sent, the telephony socket has been accepted
    all the same, and nothing at all is sent on either connection:
    whatever the telephony side sends afterwards is not read. *)
Theorem X15_no_relay_without_session (instructions : string)
    (c : connection) (evs : list event) (t : list call_action) (e : exn) :
  media_stream instructions c evs = (t, Raise e) ->
  (c = Refused e \/ (c = Connected false /\ e = ConnectionClosed)) /\
  In websocket_accept t /\
  relayed t = [].
Proof.
  unfold media_stream, send_session_update, ws_send.
  destruct c as [e'|[|]]; simpl.
  - intros H. inversion H; subst; clear H. simpl. auto.
  - destruct (handle_media_stream evs). discriminate.
  - intros H. inversion H; subst; clear H. simpl. auto 6.
Qed.

Lemma X15_witness :
  relayed (fst (media_stream "You are." (Connected false)
                  [from_twilio (media_message "cDE=")])) = [].
Proof.
  destruct (X15_no_relay_without_session "You are." (Connected false)
              [from_twilio (media_message "cDE=")] _ _ eq_refl) as (_ & _ & H).
  exact H.
Defined.
